(** * crds.dev doc server: schema selection and the recursive "field" template

    Shallow embedding of [cmd/doc/main.go]:
    - the part of the [doc] handler that picks the validation schema of a
      decoded CustomResourceDefinition (lines 176-212), and
    - the recursive template ["field"] of [template/doc.html], which turns
      the [Properties] map of a schema into nested collapsible panels, each
      one tagged with an id drawn from [genRand].

    The HTML text itself is not modelled: a panel is a record holding what
    the template prints into it, and nested [template "field"] calls are
    its nested lists of panels. *)

From Stdlib Require Import List String Ascii Bool Arith Lia NArith.
From Stdlib Require Import Sorting.Sorted Sorting.Permutation.
From Stdlib Require Import Floats.SpecFloat.
Import ListNotations.
Local Open Scope string_scope.
Local Open Scope list_scope.

(* ================================================================== *)
(** ** Data model (k8s.io/apiextensions-apiserver/pkg/apis/apiextensions) *)
(* ================================================================== *)

(** [type JSON interface{}]: an enum literal, kept as its printed text. *)
Definition JSON := string.

(** Go's [float64], as the IEEE 754 value it denotes. *)
Definition float64 := spec_float.

(** [JSONSchemaProps] with the fields the handler and the template read.
    A Go [map[string]JSONSchemaProps] is kept as the list of its entries;
    the order of that list carries no meaning (see [rangeMap]). Pointers
    are [option]s, slices are lists. *)
#[local] Unset Elimination Schemes.
Inductive JSONSchemaProps : Type :=
| mkJSONSchemaProps
    (Description : string)
    (Type_ : string)
    (Required : list string)
    (Enum : list JSON)
    (Minimum : option float64)
    (Maximum : option float64)
    (Properties : list (string * JSONSchemaProps))
    (AdditionalProperties : option JSONSchemaPropsOrBool)
    (Items : option JSONSchemaPropsOrArray)
with JSONSchemaPropsOrBool : Type :=
| mkJSONSchemaPropsOrBool
    (Allows : bool)
    (Schema : option JSONSchemaProps)
with JSONSchemaPropsOrArray : Type :=
| mkJSONSchemaPropsOrArray
    (Schema : option JSONSchemaProps)
    (JSONSchemas : list JSONSchemaProps).
#[local] Set Elimination Schemes.

Definition Description (s : JSONSchemaProps) : string :=
  match s with mkJSONSchemaProps d _ _ _ _ _ _ _ _ => d end.
Definition Type_ (s : JSONSchemaProps) : string :=
  match s with mkJSONSchemaProps _ t _ _ _ _ _ _ _ => t end.
Definition Required (s : JSONSchemaProps) : list string :=
  match s with mkJSONSchemaProps _ _ r _ _ _ _ _ _ => r end.
Definition Enum (s : JSONSchemaProps) : list JSON :=
  match s with mkJSONSchemaProps _ _ _ e _ _ _ _ _ => e end.
Definition Minimum (s : JSONSchemaProps) : option float64 :=
  match s with mkJSONSchemaProps _ _ _ _ m _ _ _ _ => m end.
Definition Maximum (s : JSONSchemaProps) : option float64 :=
  match s with mkJSONSchemaProps _ _ _ _ _ m _ _ _ => m end.
Definition Properties (s : JSONSchemaProps) : list (string * JSONSchemaProps) :=
  match s with mkJSONSchemaProps _ _ _ _ _ _ p _ _ => p end.
Definition AdditionalProperties (s : JSONSchemaProps) : option JSONSchemaPropsOrBool :=
  match s with mkJSONSchemaProps _ _ _ _ _ _ _ a _ => a end.
Definition Items (s : JSONSchemaProps) : option JSONSchemaPropsOrArray :=
  match s with mkJSONSchemaProps _ _ _ _ _ _ _ _ i => i end.

Definition Allows (b : JSONSchemaPropsOrBool) : bool :=
  match b with mkJSONSchemaPropsOrBool a _ => a end.
Definition OrBool_Schema (b : JSONSchemaPropsOrBool) : option JSONSchemaProps :=
  match b with mkJSONSchemaPropsOrBool _ s => s end.
Definition OrArray_Schema (a : JSONSchemaPropsOrArray) : option JSONSchemaProps :=
  match a with mkJSONSchemaPropsOrArray s _ => s end.
Definition JSONSchemas (a : JSONSchemaPropsOrArray) : list JSONSchemaProps :=
  match a with mkJSONSchemaPropsOrArray _ l => l end.

(** [CustomResourceValidation]: a wrapper around the optional root schema. *)
Record CustomResourceValidation : Type := mkValidation {
  OpenAPIV3Schema : option JSONSchemaProps
}.

(** [CustomResourceDefinitionVersion]. *)
Record CustomResourceDefinitionVersion : Type := mkVersion {
  Name : string;
  Served : bool;
  Storage : bool;
  Schema : option CustomResourceValidation
}.

(** [CustomResourceDefinitionSpec], with [Names.Kind] flattened to [Kind]. *)
Record CustomResourceDefinitionSpec : Type := mkSpec {
  Group : string;
  Version : string;
  Kind : string;
  Validation : option CustomResourceValidation;
  Versions : list CustomResourceDefinitionVersion
}.

Record CustomResourceDefinition : Type := mkCRD {
  Spec : CustomResourceDefinitionSpec
}.

(* ================================================================== *)
(** ** Schema selection in [doc] (main.go, lines 176-195) *)
(* ================================================================== *)

(** The ways the handler gives up after decoding. The handler has no error
    values: it prints a sentence and returns. [errorText] is that sentence. *)
Inductive DocError : Type :=
| MissingStorageSchema   (* line 182 *)
| SchemaNotFound         (* line 193 *)
| TemplateError.         (* line 208: docTemplate.Execute returned an error *)

Definition errorText (e : DocError) : string :=
  match e with
  | MissingStorageSchema => "Specified storage version does not have a schema."
  | SchemaNotFound => "Supplied CRD has no schema."
  | TemplateError => "Supplied CRD has no schema."
  end.

(** The [for _, version := range crd.Spec.Versions] loop of lines 178-188.
    [schema] is the variable of the same name; the loop leaves it alone
    until it meets a version with [Storage == true], and then either
    returns from the handler or assigns and breaks. *)
Fixpoint scanVersions (versions : list CustomResourceDefinitionVersion)
         (schema : option CustomResourceValidation)
  : DocError + option CustomResourceValidation :=
  match versions with
  | [] => inr schema
  | version :: rest =>
      if Storage version then
        match Schema version with
        | None => inl MissingStorageSchema
        | Some s => inr (Some s)
        end
      else scanVersions rest schema
  end.

(** Lines 176-189: [schema = crd.Spec.Validation], overridden by the loop
    only when [len(crd.Spec.Versions) > 1]. *)
Definition selectValidation (crd : CustomResourceDefinition)
  : DocError + option CustomResourceValidation :=
  let schema := Validation (Spec crd) in
  if (1 <? List.length (Versions (Spec crd)))%nat
  then scanVersions (Versions (Spec crd)) schema
  else inr schema.

(** Lines 191-195: [schema == nil || schema.OpenAPIV3Schema == nil]. *)
Definition checkSchema (schema : option CustomResourceValidation)
  : DocError + JSONSchemaProps :=
  match schema with
  | None => inl SchemaNotFound
  | Some v =>
      match OpenAPIV3Schema v with
      | None => inl SchemaNotFound
      | Some s => inr s
      end
  end.

(** The schema handed to the template, or the reason there is none. *)
Definition resolveSchema (crd : CustomResourceDefinition)
  : DocError + JSONSchemaProps :=
  match selectValidation crd with
  | inl e => inl e
  | inr schema => checkSchema schema
  end.

Definition noStorage (vs : list CustomResourceDefinitionVersion) : Prop :=
  Forall (fun v => Storage v = false) vs.

(** What the handler does once the loop has stopped at [v]. *)
Definition outcomeAt (v : CustomResourceDefinitionVersion)
  : DocError + JSONSchemaProps :=
  match Schema v with
  | None => inl MissingStorageSchema
  | Some s => checkSchema (Some s)
  end.

(** Two versions that agree on everything but [Served]. *)
Definition sameButServed (a b : CustomResourceDefinitionVersion) : Prop :=
  Name a = Name b /\ Storage a = Storage b /\ Schema a = Schema b.

(* ================================================================== *)
(** ** What the template prints *)
(* ================================================================== *)

(** One [<div class="panel panel-default">] of template ["field"]
    (doc.html, lines 267-325): the heading [key], the anchor [id] that
    toggles it, and the body. [fields] are the panels of the nested
    [template "field" $value.Properties]. A schema under
    [AdditionalProperties] or [Items] gets no panel of its own: the
    template prints its description and type into the enclosing body and
    then nests the panels of its properties ([Inline]). *)
#[local] Unset Elimination Schemes.
Inductive DocNode : Type :=
| mkDocNode
    (key : string)
    (id : string)
    (description : string)
    (typeLabel : string)
    (requiredFields : list string)
    (enumValues : list JSON)
    (minimum : option float64)
    (maximum : option float64)
    (fields : list DocNode)
    (additionalPropertiesAllowed : bool)
    (additionalProperties : option Inline)
    (items : option Inline)
with Inline : Type :=
| mkInline
    (description : string)
    (typeLabel : string)
    (fields : list DocNode).
#[local] Set Elimination Schemes.

Definition key (n : DocNode) : string :=
  match n with mkDocNode k _ _ _ _ _ _ _ _ _ _ _ => k end.
Definition id (n : DocNode) : string :=
  match n with mkDocNode _ i _ _ _ _ _ _ _ _ _ _ => i end.
Definition typeLabel (n : DocNode) : string :=
  match n with mkDocNode _ _ _ t _ _ _ _ _ _ _ _ => t end.
Definition fields (n : DocNode) : list DocNode :=
  match n with mkDocNode _ _ _ _ _ _ _ _ f _ _ _ => f end.
Definition additionalPropertiesAllowed (n : DocNode) : bool :=
  match n with mkDocNode _ _ _ _ _ _ _ _ _ a _ _ => a end.
Definition additionalProperties (n : DocNode) : option Inline :=
  match n with mkDocNode _ _ _ _ _ _ _ _ _ _ a _ => a end.
Definition items (n : DocNode) : option Inline :=
  match n with mkDocNode _ _ _ _ _ _ _ _ _ _ _ i => i end.

Definition inlineFields (s : option Inline) : list DocNode :=
  match s with
  | Some (mkInline _ _ f) => f
  | None => []
  end.

(** Every panel nested directly inside the body of [n], in the order the
    template prints them: properties, then additionalProperties, then
    items. *)
Definition children (n : DocNode) : list DocNode :=
  fields n ++ inlineFields (additionalProperties n) ++ inlineFields (items n).

(** [docData] (main.go, lines 57-66). *)
Inductive docData : Type :=
| mkDocData (Repo Tag At Group Version Kind Description : string)
            (Schema : JSONSchemaProps).

(** The rendered page: the heading values and the panels of the accordion
    (doc.html, lines 247-257). *)
Inductive Page : Type :=
| mkPage (Repo Tag At Group Version Kind Description : string)
         (accordion : list DocNode).

Definition accordion (p : Page) : list DocNode :=
  match p with mkPage _ _ _ _ _ _ _ a => a end.

(** What the handler writes to the [http.ResponseWriter]: a sentence; the
    page; or, when [docTemplate.Execute] stops with an error (main.go,
    lines 197-210), the part of the page the template had written by
    then followed by the sentence of line 208. The template writes as it
    runs, and it can only fail inside the accordion, so that part holds
    the whole heading; how much of the accordion it holds is not
    modelled. *)
Inductive Response : Type :=
| Message (text : string)
| Rendered (page : Page)
| Broken (Repo Tag At Group Version Kind Description : string) (text : string).

(* ================================================================== *)
(** ** Order of [range] over a map *)
(* ================================================================== *)

(** text/template visits a map with string keys in sorted key order; Go
    compares strings byte by byte, which is [String.leb]. The entries are
    put in that order by insertion. *)
Fixpoint insertKey {V : Type} (kv : string * V) (l : list (string * V))
  : list (string * V) :=
  match l with
  | [] => [kv]
  | kv' :: rest =>
      if String.leb (fst kv) (fst kv') then kv :: l
      else kv' :: insertKey kv rest
  end.

Fixpoint sortKeys {V : Type} (l : list (string * V)) : list (string * V) :=
  match l with
  | [] => []
  | kv :: rest => insertKey kv (sortKeys rest)
  end.

Fixpoint sortedb (l : list string) : bool :=
  match l with
  | [] => true
  | a :: rest =>
      match rest with
      | [] => true
      | b :: _ => String.leb a b && sortedb rest
      end
  end.

(* ================================================================== *)
(** ** Template execution *)
(* ================================================================== *)

Section Template.

(** The state of the process-wide generator behind
    [k8s.io/apimachinery/pkg/util/rand] and its [String(n)]. The handler
    only calls it; nothing in main.go looks at what it returns. *)
Variable Rng : Type.
Variable randString : nat -> Rng -> string * Rng.

(** Running a template: it may call [genRand], and it may stop with an
    error ([None]); the generator keeps whatever state it reached. *)
Definition Exec (A : Type) : Type := Rng -> option A * Rng.

Definition ret {A : Type} (a : A) : Exec A := fun rng => (Some a, rng).

Definition bind {A B : Type} (m : Exec A) (f : A -> Exec B) : Exec B :=
  fun rng =>
    match m rng with
    | (Some a, rng') => f a rng'
    | (None, rng') => (None, rng')
    end.

(** An error raised by a template function. *)
Definition fail {A : Type} : Exec A := fun rng => (None, rng).

Notation "x <- m ;; f" := (bind m (fun x => f))
  (at level 61, m at next level, right associativity).

(** The [genRand] entry of the FuncMap (main.go, lines 48-50). *)
Definition genRand : Exec string :=
  fun rng => let (s, rng') := randString 10 rng in (Some s, rng').

(** [{{ range $key, $value := . }} body {{ end }}] on entries already
    in visiting order; each entry carries the body to run on its value. *)
Fixpoint forEach {A : Type} (l : list (string * (string -> Exec A)))
  : Exec (list A) :=
  match l with
  | [] => ret []
  | (k, body) :: rest =>
      x <- body k ;;
      xs <- forEach rest ;;
      ret (x :: xs)
  end.

(** [range] over a map: sorted key order. *)
Definition rangeMap {A : Type} (m : list (string * (string -> Exec A)))
  : Exec (list A) :=
  forEach (sortKeys m).

(** [{{ if gt (len m) 0 }}{{ template "field" m }}{{ end }}]. *)
Definition ifNonEmpty {V : Type} (m : list V)
           (t : Exec (list DocNode)) : Exec (list DocNode) :=
  if (0 <? List.length m)%nat then t else ret [].

(** The body of the [range] in template ["field"] (doc.html, lines
    266-325) for one [$key], [$value]. The nested [template "field"]
    calls are [rangeMap] over the nested map, each value paired with
    this same body.

    Lines 317-321: when [$value.Items.JSONSchemas] is a non-empty slice
    the template evaluates [gt ($value.Items.JSONSchemas) 0]; [gt] takes
    basic kinds only and returns an error for a slice, which ends the
    execution. *)
Fixpoint fieldBody (value : JSONSchemaProps) (key : string) {struct value}
  : Exec DocNode :=
  match value with
  | mkJSONSchemaProps desc ty req enum mn mx props addl its =>
      randID <- genRand ;;
      fs <- ifNonEmpty props
              (rangeMap (map (fun kv => (fst kv, fieldBody (snd kv))) props)) ;;
      ap <- match addl with
            | None => ret None
            | Some (mkJSONSchemaPropsOrBool _ None) => ret None
            | Some (mkJSONSchemaPropsOrBool _
                      (Some (mkJSONSchemaProps d t _ _ _ _ ps _ _))) =>
                sub <- ifNonEmpty ps
                         (rangeMap (map (fun kv => (fst kv, fieldBody (snd kv))) ps)) ;;
                ret (Some (mkInline d t sub))
            end ;;
      it <- match its with
            | None => ret None
            | Some (mkJSONSchemaPropsOrArray sch tuple) =>
                inl <- match sch with
                       | None => ret None
                       | Some (mkJSONSchemaProps d t _ _ _ _ ps _ _) =>
                           sub <- ifNonEmpty ps
                                    (rangeMap (map (fun kv => (fst kv, fieldBody (snd kv))) ps)) ;;
                           ret (Some (mkInline d t sub))
                       end ;;
                match tuple with
                | [] => ret inl
                | _ :: _ => fail
                end
            end ;;
      ret (mkDocNode key randID desc ty req enum mn mx fs
             (match addl with Some a => Allows a | None => false end)
             ap it)
  end.

(** [{{ define "field" }}]: the range over a properties map. *)
Definition field (m : list (string * JSONSchemaProps)) : Exec (list DocNode) :=
  rangeMap (map (fun kv => (fst kv, fieldBody (snd kv))) m).

(** Lines 301-306 and 310-315: a nested schema printed into the body. *)
Definition inline (s : option JSONSchemaProps) : Exec (option Inline) :=
  match s with
  | None => ret None
  | Some s =>
      sub <- ifNonEmpty (Properties s) (field (Properties s)) ;;
      ret (Some (mkInline (Description s) (Type_ s) sub))
  end.

(** The page (doc.html, lines 247-257). *)
Definition docTemplate (data : docData) : Exec Page :=
  match data with
  | mkDocData repo tag at_ group version kind description schema =>
      acc <- ifNonEmpty (Properties schema) (field (Properties schema)) ;;
      ret (mkPage repo tag at_ group version kind description acc)
  end.

(** [doc] from line 176 on, for a request whose path parsed into
    [org], [repo], [tag] and whose cache entry decoded into [crd]. *)
Definition doc (org repo tag : string) (crd : CustomResourceDefinition)
  : Rng -> Response * Rng :=
  fun rng =>
    let at_ := if String.eqb tag "" then "" else "@" in
    match resolveSchema crd with
    | inl e => (Message (errorText e), rng)
    | inr schema =>
        match docTemplate
                (mkDocData (org ++ "/" ++ repo) tag at_
                   (Group (Spec crd)) (Version (Spec crd)) (Kind (Spec crd))
                   (Description schema) schema) rng with
        | (Some page, rng') => (Rendered page, rng')
        | (None, rng') =>
            (Broken (org ++ "/" ++ repo) tag at_
               (Group (Spec crd)) (Version (Spec crd)) (Kind (Spec crd))
               (Description schema) (errorText TemplateError), rng')
        end
    end.

(** The body run on entries in the order given. *)
Fixpoint renderAll (l : list (string * JSONSchemaProps))
  : Exec (list DocNode) :=
  match l with
  | [] => ret []
  | kv :: rest =>
      x <- fieldBody (snd kv) (fst kv) ;;
      xs <- renderAll rest ;;
      ret (x :: xs)
  end.

(** The next [n] values of [genRand] and the state after them. *)
Fixpoint draws (n : nat) (rng : Rng) : list string :=
  match n with
  | O => []
  | S n' => fst (randString 10 rng) :: draws n' (snd (randString 10 rng))
  end.

Fixpoint skip (n : nat) (rng : Rng) : Rng :=
  match n with
  | O => rng
  | S n' => skip n' (snd (randString 10 rng))
  end.

End Template.

Arguments ret {Rng A} a rng.
Arguments bind {Rng A B} m f rng.
Arguments fail {Rng A} rng.
Arguments genRand {Rng} randString rng.
Arguments forEach {Rng A} l rng.
Arguments rangeMap {Rng A} m rng.
Arguments ifNonEmpty {Rng V} m t rng.
Arguments fieldBody {Rng} randString value key rng.
Arguments field {Rng} randString m rng.
Arguments inline {Rng} randString s rng.
Arguments renderAll {Rng} randString l rng.
Arguments docTemplate {Rng} randString data rng.
Arguments doc {Rng} randString org repo tag crd rng.
Arguments draws {Rng} randString n rng.
Arguments skip {Rng} randString n rng.

(* ================================================================== *)
(** ** Measures on schemas and on panels *)
(* ================================================================== *)

(** The schema printed inline for [AdditionalProperties] / [Items]. *)
Definition addlSchema (v : JSONSchemaProps) : option JSONSchemaProps :=
  match AdditionalProperties v with
  | Some a => OrBool_Schema a
  | None => None
  end.

Definition itemsSchema (v : JSONSchemaProps) : option JSONSchemaProps :=
  match Items v with
  | Some a => OrArray_Schema a
  | None => None
  end.

Definition itemsTuple (v : JSONSchemaProps) : list JSONSchemaProps :=
  match Items v with
  | Some a => JSONSchemas a
  | None => []
  end.

(** [$value.AdditionalProperties.Allows], read only behind the nil test. *)
Definition allows (v : JSONSchemaProps) : bool :=
  match AdditionalProperties v with
  | Some a => Allows a
  | None => false
  end.

(** What the template prints inline for the nested schema [s], given the
    panels [sub] of its properties. *)
Definition inlineOf (s : option JSONSchemaProps) (sub : list DocNode)
  : option Inline :=
  match s with
  | Some x => Some (mkInline (Description x) (Type_ x) sub)
  | None => None
  end.

Definition inlineProps (s : option JSONSchemaProps)
  : list (string * JSONSchemaProps) :=
  match s with
  | Some s => Properties s
  | None => []
  end.

(** The maps the template ranges over below [v], in template order. *)
Definition visited (v : JSONSchemaProps) : list (string * JSONSchemaProps) :=
  Properties v ++ inlineProps (addlSchema v) ++ inlineProps (itemsSchema v).

(** No schema the template reaches from [v] has a non-empty
    [Items.JSONSchemas]. *)
Fixpoint renders (v : JSONSchemaProps) : bool :=
  match v with
  | mkJSONSchemaProps _ _ _ _ _ _ props addl its =>
      forallb (fun kv => renders (snd kv)) props
      && match addl with
         | Some (mkJSONSchemaPropsOrBool _
                   (Some (mkJSONSchemaProps _ _ _ _ _ _ ps _ _))) =>
             forallb (fun kv => renders (snd kv)) ps
         | _ => true
         end
      && match its with
         | Some (mkJSONSchemaPropsOrArray sch tuple) =>
             match sch with
             | Some (mkJSONSchemaProps _ _ _ _ _ _ ps _ _) =>
                 forallb (fun kv => renders (snd kv)) ps
             | None => true
             end
             && match tuple with [] => true | _ :: _ => false end
         | None => true
         end
  end.









(** Anchor ids of a panel and of everything nested in it, in the order
    the template prints them. *)
Fixpoint ids (n : DocNode) : list string :=
  match n with
  | mkDocNode _ i _ _ _ _ _ _ fs _ ap it =>
      i :: flat_map ids fs
        ++ match ap with Some (mkInline _ _ f) => flat_map ids f | None => [] end
        ++ match it with Some (mkInline _ _ f) => flat_map ids f | None => [] end
  end.

Fixpoint nodeCount (n : DocNode) : nat :=
  match n with
  | mkDocNode _ _ _ _ _ _ _ _ fs _ ap it =>
      S (list_sum (map nodeCount fs)
         + match ap with Some (mkInline _ _ f) => list_sum (map nodeCount f) | None => 0 end
         + match it with Some (mkInline _ _ f) => list_sum (map nodeCount f) | None => 0 end)
  end.

(** Number of panels in a list of panels, nested ones included. *)
Definition totalCount (ps : list DocNode) : nat := list_sum (map nodeCount ps).


(** A panel with every anchor id blanked: what is left is the keys, the
    printed values and the nesting. *)
Fixpoint eraseIds (n : DocNode) : DocNode :=
  match n with
  | mkDocNode k _ d t r e mn mx fs al ap it =>
      mkDocNode k "" d t r e mn mx (map eraseIds fs) al
        match ap with Some (mkInline d' t' f) => Some (mkInline d' t' (map eraseIds f)) | None => None end
        match it with Some (mkInline d' t' f) => Some (mkInline d' t' (map eraseIds f)) | None => None end
  end.

Definition eraseInline (s : option Inline) : option Inline :=
  match s with
  | Some (mkInline d t f) => Some (mkInline d t (map eraseIds f))
  | None => None
  end.

(** The generator that always answers with the empty token: a run with it
    builds the panels with blank ids. *)
Definition blank (n : nat) (u : unit) : string * unit := ("", tt).

(** Every list of sibling panels in and below [n] is in ascending key
    order. *)
Fixpoint ordered (n : DocNode) : bool :=
  match n with
  | mkDocNode _ _ _ _ _ _ _ _ fs _ ap it =>
      sortedb (map key fs) && forallb ordered fs
      && match ap with
         | Some (mkInline _ _ f) => sortedb (map key f) && forallb ordered f
         | None => true
         end
      && match it with
         | Some (mkInline _ _ f) => sortedb (map key f) && forallb ordered f
         | None => true
         end
  end.


(* ================================================================== *)
(** ** Concrete manifests, schemas and generators *)
(* ================================================================== *)

Definition leaf (ty : string) : JSONSchemaProps :=
  mkJSONSchemaProps "" ty [] [] None None [] None None.

Definition object (props : list (string * JSONSchemaProps)) : JSONSchemaProps :=
  mkJSONSchemaProps "" "object" [] [] None None props None None.

(** An object schema whose only property is again such an object,
    [n] levels down. *)
Fixpoint nested (n : nat) : JSONSchemaProps :=
  match n with
  | O => leaf "string"
  | S n' => object [("spec", nested n')]
  end.

Definition schemaV1 : JSONSchemaProps := object [("a", leaf "string")].
Definition schemaV2 : JSONSchemaProps := object [("b", leaf "integer")].
Definition schemaTop : JSONSchemaProps := object [("legacy", leaf "string")].

Definition validation (s : JSONSchemaProps) : option CustomResourceValidation :=
  Some (mkValidation (Some s)).

Definition crdOf (top : option CustomResourceValidation)
           (versions : list CustomResourceDefinitionVersion)
  : CustomResourceDefinition :=
  mkCRD (mkSpec "example.org" "v1" "Widget" top versions).

(** Two versions, neither one flagged as storage. *)
Definition crdNoStorage : CustomResourceDefinition :=
  crdOf (validation schemaTop)
    [ mkVersion "v1" true false (validation schemaV1);
      mkVersion "v2" true false (validation schemaV2) ].

(** The manifest of the spec's example: [v2] is the storage version. *)
Definition crdStorageV2 : CustomResourceDefinition :=
  crdOf None
    [ mkVersion "v1" true false (validation schemaV1);
      mkVersion "v2" true true (validation schemaV2) ].

(** A single version that carries its own schema. *)
Definition crdSingle : CustomResourceDefinition :=
  crdOf (validation schemaTop)
    [ mkVersion "v1" true true (validation schemaV1) ].

(** The storage version has no schema. *)
Definition crdStorageBare : CustomResourceDefinition :=
  crdOf (validation schemaTop)
    [ mkVersion "v1" true false (validation schemaV1);
      mkVersion "v2" true true None;
      mkVersion "v3" false true (validation schemaV2) ].

(** Two storage-flagged versions. *)
Definition crdTwoStorage : CustomResourceDefinition :=
  crdOf (validation schemaTop)
    [ mkVersion "v1" true false None;
      mkVersion "v2" true true (validation schemaV1);
      mkVersion "v3" true true (validation schemaV2) ].

(** A manifest without versions, documented from its top-level schema. *)
Definition crdPlain (schema : JSONSchemaProps) : CustomResourceDefinition :=
  crdOf (validation schema) [].


(** A generator that hands out the tokens of a given list, one per call. *)
Definition replay (n : nat) (pending : list string) : string * list string :=
  match pending with
  | t :: rest => (t, rest)
  | [] => ("", [])
  end.

Definition tokens : list string :=
  [ "bcdfghjklm"; "npqrstvwxz"; "2456789bcd"; "fghjklmnpq"; "rstvwxz245" ].

(** Two calls in a row return the same token. *)
Definition collision : list string := [ "bcdfghjklm"; "bcdfghjklm" ].

(** [{type: object, properties: {a: {type: string}, b: {type: integer}},
      required: [b]}]. *)
Definition schemaAB : JSONSchemaProps :=
  mkJSONSchemaProps "" "object" ["b"] [] None None
    [("b", leaf "integer"); ("a", leaf "string")] None None.

(** [{type: array, items: {type: string}}]. *)
Definition schemaArray : JSONSchemaProps :=
  mkJSONSchemaProps "" "array" [] [] None None []
    None (Some (mkJSONSchemaPropsOrArray (Some (leaf "string")) [])).

(** [{type: array, items: {type: object, properties: {x: {type: string}}}}]. *)
Definition schemaArrayOfObjects : JSONSchemaProps :=
  mkJSONSchemaProps "" "array" [] [] None None []
    None (Some (mkJSONSchemaPropsOrArray
                  (Some (object [("x", leaf "string")])) [])).

(** [{type: object, additionalProperties: true}] and [... false]. *)
Definition schemaOpen (allowed : bool) : JSONSchemaProps :=
  mkJSONSchemaProps "" "object" [] [] None None []
    (Some (mkJSONSchemaPropsOrBool allowed None)) None.

(** [{type: object, additionalProperties:
       {type: object, properties: {x: {type: string}, y: {type: integer}}}}]. *)
Definition schemaMapOfObjects : JSONSchemaProps :=
  mkJSONSchemaProps "" "object" [] [] None None []
    (Some (mkJSONSchemaPropsOrBool true
             (Some (object [("x", leaf "string"); ("y", leaf "integer")]))))
    None.

(** [{type: array, items: [{type: string}, {type: integer}]}]. *)
Definition schemaTuple : JSONSchemaProps :=
  mkJSONSchemaProps "" "array" [] [] None None []
    None (Some (mkJSONSchemaPropsOrArray None [leaf "string"; leaf "integer"])).

(* ================================================================== *)
(** ** The request path ([parseGHURL], main.go lines 214-231) *)
(* ================================================================== *)

Module strings.

(** [strings.Split(s, sep)] for a separator of one byte, which is how the
    handler calls it (["/"] and ["@"]): the pieces of [s] between the
    separators, one more than there are separators. *)
Fixpoint Split (sep : ascii) (s : string) : list string :=
  match s with
  | EmptyString => [EmptyString]
  | String c rest =>
      if Ascii.eqb c sep then EmptyString :: Split sep rest
      else
        match Split sep rest with
        | first :: others => String c first :: others
        | [] => [String c EmptyString]
        end
  end.

(** [strings.Count(s, sep)] for a separator of one byte. *)
Fixpoint Count (sep : ascii) (s : string) : nat :=
  match s with
  | EmptyString => 0
  | String c rest => (if Ascii.eqb c sep then 1 else 0) + Count sep rest
  end.

Fixpoint TrimLeft (c : ascii) (s : string) : string :=
  match s with
  | EmptyString => EmptyString
  | String a rest => if Ascii.eqb a c then TrimLeft c rest else s
  end.

Fixpoint TrimRight (c : ascii) (s : string) : string :=
  match s with
  | EmptyString => EmptyString
  | String a rest =>
      match TrimRight c rest with
      | EmptyString => if Ascii.eqb a c then EmptyString else String a EmptyString
      | kept => String a kept
      end
  end.

(** [strings.Trim(s, cutset)] for a cutset of one byte:
    [trimLeftByte(trimRightByte(s, c), c)]. *)
Definition Trim (c : ascii) (s : string) : string :=
  TrimLeft c (TrimRight c s).

(** [strings.Join(elems, sep)]. *)
Fixpoint Join (elems : list string) (sep : string) : string :=
  match elems with
  | [] => EmptyString
  | [e] => e
  | e :: rest => e ++ sep ++ Join rest sep
  end.

End strings.

(** Why [parseGHURL] returns an error: [url.Parse] failed, or
    [errors.New("invalid path")]. *)
Inductive PathError : Type :=
| BadURL
| InvalidPath.

(** [parseGHURL] from line 220 on, given [u.Path]. *)
Definition parsePath (path : string) : PathError + (string * string * string) :=
  let elements := strings.Split "/" (strings.Trim "/" path) in
  if (List.length elements <? 4)%nat then inl InvalidPath
  else
    let tagSplit := strings.Split "@" path in
    let tag := if (1 <? List.length tagSplit)%nat then nth 1 tagSplit "" else "" in
    inr (nth 1 elements "", nth 2 elements "", tag).

(** What a handler leaves in the response: one of the answers of
    [Response], or the output of [newTemplate] (template/new.html),
    followed by "Unable to render new template." when its execution
    failed. *)
Inductive Reply : Type :=
| Plain (r : Response)
| NewTemplate (failed : bool).

Section Request.

(** The collaborators of [doc]: the random generator, [url.Parse] (its
    result is the [Path] of the parsed URL), the cache behind
    [redisClient.Get(key).Result()], [json.Unmarshal] into a
    CustomResourceDefinition, and whether executing [newTemplate] fails. *)
Variable Rng : Type.
Variable randString : nat -> Rng -> string * Rng.
Variable urlParse : string -> option string.
Variable redisGet : string -> option string.
Variable jsonUnmarshal : string -> option CustomResourceDefinition.
Variable newTemplateFails : bool.

(** [parseGHURL] (main.go, lines 215-231). *)
Definition parseGHURL (uPath : string) : PathError + (string * string * string) :=
  match urlParse uPath with
  | None => inl BadURL
  | Some path => parsePath path
  end.

(** The whole handler [doc] (main.go, lines 146-212) on [r.URL.Path]. *)
Definition docRequest (path : string) : Rng -> Reply * Rng :=
  fun rng =>
    match parseGHURL path with
    | inl _ => (Plain (Message "Invalid URL."), rng)
    | inr (org, repo, tag) =>
        match redisGet (strings.Trim "/" path) with
        | None => (NewTemplate newTemplateFails, rng)
        | Some res =>
            match jsonUnmarshal res with
            | None => (Plain (Message "Supplied file is not a valid CRD."), rng)
            | Some crd =>
                let (r, rng1) := doc randString org repo tag crd rng in
                (Plain r, rng1)
            end
        end
    end.

End Request.

Arguments docRequest {Rng} randString urlParse redisGet jsonUnmarshal
  newTemplateFails path rng.

(* ================================================================== *)
(** ** More measures *)
(* ================================================================== *)

Definition description (n : DocNode) : string :=
  match n with mkDocNode _ _ d _ _ _ _ _ _ _ _ _ => d end.
Definition requiredFields (n : DocNode) : list string :=
  match n with mkDocNode _ _ _ _ r _ _ _ _ _ _ _ => r end.
Definition enumValues (n : DocNode) : list JSON :=
  match n with mkDocNode _ _ _ _ _ e _ _ _ _ _ _ => e end.
Definition minimum (n : DocNode) : option float64 :=
  match n with mkDocNode _ _ _ _ _ _ m _ _ _ _ _ => m end.
Definition maximum (n : DocNode) : option float64 :=
  match n with mkDocNode _ _ _ _ _ _ _ m _ _ _ _ => m end.

(** The panel [n] shows the values of the schema [v] under the key [k]. *)
Definition shows (k : string) (v : JSONSchemaProps) (n : DocNode) : Prop :=
  key n = k
  /\ description n = Description v
  /\ typeLabel n = Type_ v
  /\ requiredFields n = Required v
  /\ enumValues n = Enum v
  /\ minimum n = Minimum v
  /\ maximum n = Maximum v
  /\ additionalPropertiesAllowed n = allows v.

(** Number of times the body of the range runs below and at [v]. *)
Fixpoint visitCount (v : JSONSchemaProps) : nat :=
  match v with
  | mkJSONSchemaProps _ _ _ _ _ _ props addl its =>
      S (list_sum (map (fun kv => visitCount (snd kv)) props)
         + match addl with
           | Some (mkJSONSchemaPropsOrBool _
                     (Some (mkJSONSchemaProps _ _ _ _ _ _ ps _ _))) =>
               list_sum (map (fun kv => visitCount (snd kv)) ps)
           | _ => 0
           end
         + match its with
           | Some (mkJSONSchemaPropsOrArray
                     (Some (mkJSONSchemaProps _ _ _ _ _ _ ps _ _)) _) =>
               list_sum (map (fun kv => visitCount (snd kv)) ps)
           | _ => 0
           end)
  end.

Definition mapCount (m : list (string * JSONSchemaProps)) : nat :=
  list_sum (map (fun kv => visitCount (snd kv)) m).

(** All the template reads of a schema printed inline. *)
Definition inlineView (s : option JSONSchemaProps)
  : option (string * string * list (string * JSONSchemaProps)) :=
  match s with
  | Some x => Some (Description x, Type_ x, Properties x)
  | None => None
  end.

(** The panel [n] has, at every level, one nested panel for each entry
    the template ranges over in the schema [v], under that entry's key
    and in key order: for the properties, for the properties of the
    schema under [AdditionalProperties], and for those of the schema
    under [Items]. *)
#[local] Unset Elimination Schemes.
Inductive Follows : JSONSchemaProps -> DocNode -> Prop :=
| Follows_node v n :
    Forall2 (fun kv c => key c = fst kv /\ Follows (snd kv) c)
            (sortKeys (Properties v)) (fields n) ->
    Forall2 (fun kv c => key c = fst kv /\ Follows (snd kv) c)
            (sortKeys (inlineProps (addlSchema v)))
            (inlineFields (additionalProperties n)) ->
    Forall2 (fun kv c => key c = fst kv /\ Follows (snd kv) c)
            (sortKeys (inlineProps (itemsSchema v)))
            (inlineFields (items n)) ->
    Follows v n.

#[local] Set Elimination Schemes.

Definition FollowsEntry (kv : string * JSONSchemaProps) (c : DocNode) : Prop :=
  key c = fst kv /\ Follows (snd kv) c.

(** A relation lifted to pointers that may be nil. *)
Inductive OptionRel {A : Type} (R : A -> A -> Prop)
  : option A -> option A -> Prop :=
| OptionRel_None : OptionRel R None None
| OptionRel_Some a b : R a b -> OptionRel R (Some a) (Some b).

(** The same schema, with the entries of every map, at every level,
    listed in some other order: a Go map has no order of its own, so two
    such values of the model stand for one schema. *)
#[local] Unset Elimination Schemes.
Inductive SameSchema : JSONSchemaProps -> JSONSchemaProps -> Prop :=
| SameSchema_node d t r e mn mx props1 listed props2 addl1 addl2 its1 its2 :
    Permutation props1 listed ->
    Forall2 (fun a b => fst a = fst b /\ SameSchema (snd a) (snd b))
            listed props2 ->
    OptionRel (fun a b => Allows a = Allows b
                          /\ OptionRel SameSchema (OrBool_Schema a) (OrBool_Schema b))
              addl1 addl2 ->
    OptionRel (fun a b => OptionRel SameSchema (OrArray_Schema a) (OrArray_Schema b)
                          /\ Forall2 SameSchema (JSONSchemas a) (JSONSchemas b))
              its1 its2 ->
    SameSchema (mkJSONSchemaProps d t r e mn mx props1 addl1 its1)
               (mkJSONSchemaProps d t r e mn mx props2 addl2 its2).

#[local] Set Elimination Schemes.

Definition SameEntry (a b : string * JSONSchemaProps) : Prop :=
  fst a = fst b /\ SameSchema (snd a) (snd b).

(** Two listings of one properties map. *)
Definition SameMap (m1 m2 : list (string * JSONSchemaProps)) : Prop :=
  exists listed, Permutation m1 listed /\ Forall2 SameEntry listed m2.

Fixpoint distinctb (l : list string) : bool :=
  match l with
  | [] => true
  | a :: rest => negb (existsb (String.eqb a) rest) && distinctb rest
  end.

(** The keys of every map the template ranges over at and below [v] are
    pairwise distinct, as the keys of a Go map are. *)
Fixpoint wellKeyed (v : JSONSchemaProps) : bool :=
  match v with
  | mkJSONSchemaProps _ _ _ _ _ _ props addl its =>
      (distinctb (map fst props)
       && forallb (fun kv => wellKeyed (snd kv)) props)
      && match addl with
         | Some (mkJSONSchemaPropsOrBool _
                   (Some (mkJSONSchemaProps _ _ _ _ _ _ ps _ _))) =>
             distinctb (map fst ps) && forallb (fun kv => wellKeyed (snd kv)) ps
         | _ => true
         end
      && match its with
         | Some (mkJSONSchemaPropsOrArray
                   (Some (mkJSONSchemaProps _ _ _ _ _ _ ps _ _)) _) =>
             distinctb (map fst ps) && forallb (fun kv => wellKeyed (snd kv)) ps
         | _ => true
         end
  end.

Definition wellKeyedMap (m : list (string * JSONSchemaProps)) : bool :=
  distinctb (map fst m) && forallb (fun kv => wellKeyed (snd kv)) m.

(** Ids aside, the body builds the same panel for [v1] and [v2]. *)
Definition sameBody (v1 v2 : JSONSchemaProps) : Prop :=
  forall k u, fieldBody blank v1 k u = fieldBody blank v2 k u.

(** One schema listed in two ways, two levels deep. *)
Definition listingA : list (string * JSONSchemaProps) :=
  [ ("spec", object [("y", leaf "integer"); ("x", object [("q", leaf "string");
                                                           ("p", leaf "string")])]);
    ("kind", leaf "string") ].

Definition listingB : list (string * JSONSchemaProps) :=
  [ ("kind", leaf "string");
    ("spec", object [("x", object [("p", leaf "string"); ("q", leaf "string")]);
                     ("y", leaf "integer")]) ].

(** An array whose item schema has a property called [items], and a map
    whose value schema has a property called [additionalProperties]. *)
Definition schemaItemsNamedItems : JSONSchemaProps :=
  mkJSONSchemaProps "" "array" [] [] None None []
    None (Some (mkJSONSchemaPropsOrArray
                  (Some (object [("items", leaf "string")])) [])).

Definition schemaAdditionalNamed : JSONSchemaProps :=
  mkJSONSchemaProps "" "object" [] [] None None []
    (Some (mkJSONSchemaPropsOrBool true
             (Some (object [("additionalProperties", leaf "string")]))))
    None.

(** Two versions that agree on [Storage] and, when they are flagged as
    storage, on their schema. *)
Definition sameStorage (a b : CustomResourceDefinitionVersion) : Prop :=
  Storage a = Storage b /\ (Storage a = true -> Schema a = Schema b).

(** [{type: array, items: {type: array, items: [{type: string}]}}]: the
    tuple sits one array further in. *)
Definition schemaArrayOfTuples : JSONSchemaProps :=
  mkJSONSchemaProps "" "array" [] [] None None []
    None (Some (mkJSONSchemaPropsOrArray (Some schemaTuple) [])).

(** A cache with one entry, and a decoder that knows one document. *)
Definition cacheOf (key value : string) (k : string) : option string :=
  if String.eqb k key then Some value else None.

Definition decoderOf (text : string) (crd : CustomResourceDefinition)
           (t : string) : option CustomResourceDefinition :=
  if String.eqb t text then Some crd else None.

(* ================================================================== *)
(** * Properties of schema selection *)
(* ================================================================== *)

Lemma scanVersions_find vs schema :
  scanVersions vs schema =
  match find Storage vs with
  | None => inr schema
  | Some v =>
      match Schema v with
      | None => inl MissingStorageSchema
      | Some s => inr (Some s)
      end
  end.
Proof.
  induction vs as [|v vs IH]; simpl; [reflexivity|].
  destruct (Storage v); [reflexivity | exact IH].
Qed.

Lemma find_first_storage pre v post :
  noStorage pre -> Storage v = true ->
  find Storage (pre ++ v :: post) = Some v.
Proof.
  intros Hpre Hv. induction Hpre as [|w pre Hw _ IH]; simpl.
  - now rewrite Hv.
  - now rewrite Hw.
Qed.

Lemma find_no_storage vs : noStorage vs -> find Storage vs = None.
Proof.
  induction 1 as [|w vs Hw _ IH]; simpl; [reflexivity|]. now rewrite Hw.
Qed.

Lemma resolveSchema_many crd :
  1 < List.length (Versions (Spec crd)) ->
  resolveSchema crd =
  match find Storage (Versions (Spec crd)) with
  | None => checkSchema (Validation (Spec crd))
  | Some v => outcomeAt v
  end.
Proof.
  intros Hlen. unfold resolveSchema, selectValidation, outcomeAt.
  apply Nat.ltb_lt in Hlen. rewrite Hlen, scanVersions_find.
  destruct (find Storage (Versions (Spec crd))) as [v|]; [|reflexivity].
  destruct (Schema v); reflexivity.
Qed.

Lemma resolveSchema_few crd :
  List.length (Versions (Spec crd)) <= 1 ->
  resolveSchema crd = checkSchema (Validation (Spec crd)).
Proof.
  intros Hlen. unfold resolveSchema, selectValidation.
  destruct (Nat.ltb_spec 1 (List.length (Versions (Spec crd)))); [lia | reflexivity].
Qed.

(** C1, as stated, fails: two versions, none of them the storage version,
    and the handler documents the top-level validation schema. *)
Lemma C1_no_storage_counterexample :
  1 < List.length (Versions (Spec crdNoStorage))
  /\ noStorage (Versions (Spec crdNoStorage))
  /\ resolveSchema crdNoStorage = inr schemaTop
  /\ (forall e, resolveSchema crdNoStorage <> inl e)
  /\ exists page rng',
       doc replay "crdsdev" "doc" "" crdNoStorage tokens = (Rendered page, rng').
Proof.
  split; [simpl; lia|]. split; [repeat constructor|].
  split; [reflexivity|]. split; [intros e H; discriminate H|].
  eexists; eexists; reflexivity.
Qed.

(** C1 (amended): with more than one version, the handler takes the first
    version flagged as storage, if there is one, and otherwise keeps the
    top-level validation schema; the schema it ends up with is documented
    when it has a root schema and is reported as missing otherwise. *)
Theorem C1_storage_scan crd :
  1 < List.length (Versions (Spec crd)) ->
  resolveSchema crd =
  match find Storage (Versions (Spec crd)) with
  | None => checkSchema (Validation (Spec crd))
  | Some v =>
      match Schema v with
      | None => inl MissingStorageSchema
      | Some s => checkSchema (Some s)
      end
  end.
Proof. exact (resolveSchema_many crd). Qed.

Lemma C1_storage_scan_witness :
  resolveSchema crdStorageV2 = inr schemaV2.
Proof.
  rewrite (C1_storage_scan crdStorageV2); [reflexivity | simpl; lia].
Defined.

(** C5, as stated, fails: the only version carries a schema, and the
    handler documents the top-level one. *)
Lemma C5_single_version_counterexample :
  List.length (Versions (Spec crdSingle)) = 1
  /\ map Schema (Versions (Spec crdSingle)) = [validation schemaV1]
  /\ resolveSchema crdSingle = inr schemaTop
  /\ resolveSchema crdSingle <> inr schemaV1
  /\ resolveSchema (crdOf None (Versions (Spec crdSingle))) = inl SchemaNotFound.
Proof.
  repeat split; try reflexivity. intros H; discriminate H.
Qed.

(** C5 (amended): with exactly one version the handler never looks at
    that version; it uses the top-level validation schema, whatever the
    version's own schema is. *)
Theorem C5_single_version_top_level crd :
  List.length (Versions (Spec crd)) = 1 ->
  resolveSchema crd = checkSchema (Validation (Spec crd)).
Proof. intros H. apply resolveSchema_few. lia. Qed.

Lemma C5_single_version_top_level_witness :
  resolveSchema crdSingle = checkSchema (validation schemaTop).
Proof.
  apply (C5_single_version_top_level crdSingle). reflexivity.
Defined.

(** C8: with more than one version, when the version the scan stops at
    has no schema, the handler answers with the missing-storage-schema
    message and renders nothing. *)
Theorem C8_missing_storage_schema crd v :
  1 < List.length (Versions (Spec crd)) ->
  find Storage (Versions (Spec crd)) = Some v ->
  Schema v = None ->
  resolveSchema crd = inl MissingStorageSchema
  /\ forall (Rng : Type) (randString : nat -> Rng -> string * Rng)
            org repo tag rng,
       doc randString org repo tag crd rng =
       (Message "Specified storage version does not have a schema.", rng).
Proof.
  intros Hlen Hfind Hnone.
  assert (Hres : resolveSchema crd = inl MissingStorageSchema).
  { rewrite (resolveSchema_many crd Hlen), Hfind. unfold outcomeAt.
    now rewrite Hnone. }
  split; [exact Hres|].
  intros Rng randString org repo tag rng. unfold doc. now rewrite Hres.
Qed.

Lemma C8_missing_storage_schema_witness :
  resolveSchema crdStorageBare = inl MissingStorageSchema
  /\ forall (Rng : Type) (randString : nat -> Rng -> string * Rng)
            org repo tag rng,
       doc randString org repo tag crdStorageBare rng =
       (Message "Specified storage version does not have a schema.", rng).
Proof.
  apply (C8_missing_storage_schema crdStorageBare (mkVersion "v2" true true None)).
  - simpl; lia.
  - reflexivity.
  - reflexivity.
Defined.

(** C9: when several versions are flagged as storage, the first one in
    list order decides the outcome; the versions after it, storage or
    not, can be replaced without changing it. *)
Theorem C9_first_storage_wins top pre v post post' w w' :
  noStorage pre -> Storage v = true ->
  In w post -> Storage w = true ->
  In w' post' -> Storage w' = true ->
  resolveSchema (crdOf top (pre ++ v :: post)) = outcomeAt v
  /\ resolveSchema (crdOf top (pre ++ v :: post'))
     = resolveSchema (crdOf top (pre ++ v :: post)).
Proof.
  intros Hpre Hv Hw _ Hw' _.
  assert (Hgen : forall p, p <> [] ->
            resolveSchema (crdOf top (pre ++ v :: p)) = outcomeAt v).
  { intros p Hp. rewrite resolveSchema_many.
    - simpl. now rewrite (find_first_storage pre v p Hpre Hv).
    - simpl. rewrite length_app. simpl. destruct p; [congruence | simpl; lia]. }
  assert (Hpost : post <> []) by (intros E; rewrite E in Hw; exact Hw).
  assert (Hpost' : post' <> []) by (intros E; rewrite E in Hw'; exact Hw').
  rewrite (Hgen post Hpost), (Hgen post' Hpost'). split; reflexivity.
Qed.

Lemma C9_first_storage_wins_witness :
  resolveSchema crdTwoStorage = inr schemaV1.
Proof.
  refine (proj1 (C9_first_storage_wins (validation schemaTop)
                   [mkVersion "v1" true false None]
                   (mkVersion "v2" true true (validation schemaV1))
                   [mkVersion "v3" true true (validation schemaV2)]
                   [mkVersion "v3" true true (validation schemaV2)]
                   (mkVersion "v3" true true (validation schemaV2))
                   (mkVersion "v3" true true (validation schemaV2))
                   _ _ _ _ _ _)).
  - repeat constructor.
  - reflexivity.
  - left; reflexivity.
  - reflexivity.
  - left; reflexivity.
  - reflexivity.
Defined.

Lemma sameButServed_find vs1 vs2 :
  Forall2 sameButServed vs1 vs2 ->
  match find Storage vs1, find Storage vs2 with
  | Some a, Some b => Schema a = Schema b
  | None, None => True
  | _, _ => False
  end.
Proof.
  induction 1 as [|a b vs1 vs2 (_ & Hst & Hsc) _ IH]; simpl; [exact I|].
  rewrite <- Hst. destruct (Storage a); [exact Hsc | exact IH].
Qed.

(** C10: two manifests that differ only in the [Served] flags of their
    versions resolve to the same schema or to the same failure, and the
    handler's answer is the same. *)
Theorem C10_served_is_ignored group version kind top vs1 vs2 :
  Forall2 sameButServed vs1 vs2 ->
  resolveSchema (mkCRD (mkSpec group version kind top vs1))
  = resolveSchema (mkCRD (mkSpec group version kind top vs2))
  /\ forall (Rng : Type) (randString : nat -> Rng -> string * Rng)
            org repo tag rng,
       doc randString org repo tag (mkCRD (mkSpec group version kind top vs1)) rng
       = doc randString org repo tag (mkCRD (mkSpec group version kind top vs2)) rng.
Proof.
  intros H.
  assert (Hres : resolveSchema (mkCRD (mkSpec group version kind top vs1))
                 = resolveSchema (mkCRD (mkSpec group version kind top vs2))).
  { pose proof (Forall2_length H) as Hlen.
    pose proof (sameButServed_find vs1 vs2 H) as Hfind.
    destruct (Nat.ltb_spec 1 (List.length vs1)) as [Hlt|Hle].
    - rewrite !resolveSchema_many by (simpl; lia). simpl.
      destruct (find Storage vs1) as [a|], (find Storage vs2) as [b|];
        try contradiction; [|reflexivity].
      unfold outcomeAt. now rewrite Hfind.
    - rewrite !resolveSchema_few by (simpl; lia). reflexivity. }
  split; [exact Hres|].
  intros Rng randString org repo tag rng. unfold doc. rewrite Hres. reflexivity.
Qed.

Lemma C10_served_is_ignored_witness :
  resolveSchema
    (crdOf None [ mkVersion "v1" false false (validation schemaV1);
                  mkVersion "v2" false true (validation schemaV2) ])
  = resolveSchema crdStorageV2.
Proof.
  apply (C10_served_is_ignored "example.org" "v1" "Widget" None).
  repeat constructor.
Defined.

(* ================================================================== *)
(** * Order of [range]: facts about [sortKeys] *)
(* ================================================================== *)

Lemma leb_false_flip a b : String.leb a b = false -> String.leb b a = true.
Proof.
  intros H. destruct (String.leb_total a b) as [E|E]; [congruence | exact E].
Qed.

Lemma leb_refl a : String.leb a a = true.
Proof. destruct (String.leb_total a a); assumption. Qed.

Lemma leb_trans a b c :
  String.leb a b = true -> String.leb b c = true -> String.leb a c = true.
Proof.
  revert b c. induction a as [|x a IH]; intros [|y b] [|z c];
    unfold String.leb; simpl; try easy.
  unfold Ascii.compare.
  destruct (N.compare_spec (N_of_ascii x) (N_of_ascii y)) as [Exy|Lxy|Gxy];
    destruct (N.compare_spec (N_of_ascii y) (N_of_ascii z)) as [Eyz|Lyz|Gyz];
    destruct (N.compare_spec (N_of_ascii x) (N_of_ascii z)) as [Exz|Lxz|Gxz];
    try easy; try lia.
  intros H1 H2. apply (IH b c); assumption.
Qed.

Section SortKeys.

Context {V : Type}.
Implicit Types (l : list (string * V)) (kv : string * V).

Lemma insertKey_perm kv l : Permutation (insertKey kv l) (kv :: l).
Proof.
  induction l as [|kv' l IH]; simpl; [reflexivity|].
  destruct (String.leb (fst kv) (fst kv')); [reflexivity|].
  rewrite IH. apply perm_swap.
Qed.

Lemma sortKeys_perm l : Permutation (sortKeys l) l.
Proof.
  induction l as [|kv l IH]; simpl; [reflexivity|].
  rewrite insertKey_perm. now constructor.
Qed.

Lemma sortedb_cons a (ks : list string) :
  sortedb (a :: ks) = true <->
  (match ks with [] => True | b :: _ => String.leb a b = true end)
  /\ sortedb ks = true.
Proof.
  destruct ks as [|b ks]; simpl.
  - tauto.
  - rewrite andb_true_iff. tauto.
Qed.

Lemma insertKey_sorted kv l :
  sortedb (map fst l) = true -> sortedb (map fst (insertKey kv l)) = true.
Proof.
  induction l as [|kv' l IH]; intros Hs; [reflexivity|].
  cbn [insertKey]. destruct (String.leb (fst kv) (fst kv')) eqn:E.
  - cbn [map]. apply sortedb_cons. split; [exact E | exact Hs].
  - cbn [map] in *. apply sortedb_cons in Hs. destruct Hs as [Hhd Htl].
    apply sortedb_cons. split; [|apply IH, Htl].
    destruct l as [|kv'' l]; cbn [insertKey map].
    + apply leb_false_flip, E.
    + destruct (String.leb (fst kv) (fst kv'')); cbn [map];
        [apply leb_false_flip, E | exact Hhd].
Qed.

Lemma sortKeys_sorted l : sortedb (map fst (sortKeys l)) = true.
Proof.
  induction l as [|kv l IH]; [reflexivity|].
  cbn [sortKeys]. apply insertKey_sorted, IH.
Qed.

(** A sorted list starts with a least key. *)
Lemma sortedb_head_least a (ks : list string) :
  sortedb (a :: ks) = true -> Forall (fun k => String.leb a k = true) ks.
Proof.
  revert a. induction ks as [|b ks IH]; intros a Hs; [constructor|].
  apply (sortedb_cons a (b :: ks)) in Hs. destruct Hs as [Hab Htl].
  constructor; [exact Hab|].
  eapply Forall_impl; [|apply (IH b Htl)].
  intros k Hbk. eapply leb_trans; eassumption.
Qed.

(** Entries with pairwise distinct keys have one sorted arrangement. *)
Lemma sorted_perm_unique l1 l2 :
  Permutation l1 l2 -> NoDup (map fst l1) ->
  sortedb (map fst l1) = true -> sortedb (map fst l2) = true ->
  l1 = l2.
Proof.
  revert l2. induction l1 as [|kv1 l1 IH]; intros l2 Hp Hnd Hs1 Hs2.
  - apply Permutation_nil in Hp. now subst.
  - destruct l2 as [|kv2 l2].
    { apply Permutation_sym, Permutation_nil in Hp. discriminate. }
    assert (Hin1 : In kv1 (kv2 :: l2))
      by (eapply Permutation_in; [exact Hp | now left]).
    assert (Hin2 : In kv2 (kv1 :: l1))
      by (eapply Permutation_in; [symmetry; exact Hp | now left]).
    pose proof (sortedb_head_least _ _ Hs1) as Hl1.
    pose proof (sortedb_head_least _ _ Hs2) as Hl2.
    rewrite Forall_forall in Hl1, Hl2.
    assert (Hk : fst kv1 = fst kv2).
    { destruct Hin1 as [E|Hin1]; [now subst|].
      destruct Hin2 as [E|Hin2]; [now subst|].
      apply String.leb_antisym.
      - apply Hl1, in_map, Hin2.
      - apply Hl2, in_map, Hin1. }
    assert (E : kv1 = kv2).
    { destruct Hin2 as [E|Hin2]; [exact E|].
      inversion Hnd as [|? ? Hnotin _]; subst.
      exfalso. apply Hnotin. rewrite Hk. apply in_map, Hin2. }
    subst kv2. f_equal. apply IH.
    + eapply Permutation_cons_inv; exact Hp.
    + now inversion Hnd.
    + apply (sortedb_cons (fst kv1) (map fst l1)) in Hs1. tauto.
    + apply (sortedb_cons (fst kv1) (map fst l2)) in Hs2. tauto.
Qed.

Lemma sortKeys_unique l1 l2 :
  Permutation l1 l2 -> NoDup (map fst l1) -> sortKeys l1 = sortKeys l2.
Proof.
  intros Hp Hnd. apply sorted_perm_unique.
  - now rewrite !sortKeys_perm.
  - eapply Permutation_NoDup; [|exact Hnd].
    apply Permutation_map. symmetry. apply sortKeys_perm.
  - apply sortKeys_sorted.
  - apply sortKeys_sorted.
Qed.

End SortKeys.

(** Sorting looks at keys only, so it commutes with a change of values. *)
Lemma sortKeys_map {V W : Type} (g : V -> W) (l : list (string * V)) :
  sortKeys (map (fun kv => (fst kv, g (snd kv))) l)
  = map (fun kv => (fst kv, g (snd kv))) (sortKeys l).
Proof.
  induction l as [|kv l IH]; [reflexivity|].
  cbn [map sortKeys]. rewrite IH. clear IH.
  induction (sortKeys l) as [|kv' s IHs]; [reflexivity|].
  cbn [map insertKey fst].
  destruct (String.leb (fst kv) (fst kv')); cbn [map]; [reflexivity|].
  now rewrite IHs.
Qed.



(* ================================================================== *)
(** * Facts about template execution *)
(* ================================================================== *)

(** Induction over the schemas the template walks: the values of the
    three maps it ranges over below a schema. *)
Lemma schema_visit_ind (P : JSONSchemaProps -> Prop) :
  (forall v, Forall (fun kv => P (snd kv)) (visited v) -> P v) ->
  forall v, P v.
Proof.
  intros step. fix IH 1. intros v.
  apply step. destruct v as [d t r e mn mx props addl its].
  unfold visited, addlSchema, itemsSchema. cbn.
  apply Forall_app; split; [|apply Forall_app; split].
  - induction props as [|[k x] props IHp]; constructor; [apply IH | exact IHp].
  - destruct addl as [[al [[d' t' r' e' mn' mx' ps a' i']|]]|]; cbn; [|constructor..].
    induction ps as [|[k x] ps IHp]; constructor; [apply IH | exact IHp].
  - destruct its as [[[[d' t' r' e' mn' mx' ps a' i']|] tuple]|]; cbn; [|constructor..].
    induction ps as [|[k x] ps IHp]; constructor; [apply IH | exact IHp].
Qed.

Lemma visited_split (P : JSONSchemaProps -> Prop) v :
  Forall (fun kv => P (snd kv)) (visited v) ->
  Forall (fun kv => P (snd kv)) (Properties v)
  /\ Forall (fun kv => P (snd kv)) (inlineProps (addlSchema v))
  /\ Forall (fun kv => P (snd kv)) (inlineProps (itemsSchema v)).
Proof.
  unfold visited. intros H.
  apply Forall_app in H. destruct H as [H1 H].
  apply Forall_app in H. tauto.
Qed.

Section TemplateFacts.

Context {Rng : Type} (randString : nat -> Rng -> string * Rng).

Lemma bind_some {A B : Type} (m : Exec Rng A) (f : A -> Exec Rng B) rng b rng2 :
  bind m f rng = (Some b, rng2) ->
  exists a rng1, m rng = (Some a, rng1) /\ f a rng1 = (Some b, rng2).
Proof.
  unfold bind. destruct (m rng) as [[a|] rng1]; [|discriminate].
  intros H. now exists a, rng1.
Qed.

Lemma bind_run {A B : Type} (m : Exec Rng A) (f : A -> Exec Rng B) rng a rng1 :
  m rng = (Some a, rng1) -> bind m f rng = f a rng1.
Proof. unfold bind. now intros ->. Qed.

Lemma draws_add a b rng :
  draws randString (a + b) rng
  = draws randString a rng ++ draws randString b (skip randString a rng).
Proof.
  revert rng. induction a as [|a IH]; intros rng; [reflexivity|].
  cbn [Nat.add draws skip app]. now rewrite IH.
Qed.

Lemma skip_add a b rng :
  skip randString (a + b) rng = skip randString b (skip randString a rng).
Proof.
  revert rng. induction a as [|a IH]; intros rng; [reflexivity|].
  cbn [Nat.add skip]. now rewrite IH.
Qed.

Lemma draws_length n rng : List.length (draws randString n rng) = n.
Proof.
  revert rng. induction n as [|n IH]; intros rng; [reflexivity|].
  cbn [draws List.length]. now rewrite IH.
Qed.

(** The body of the range, with the nested template calls folded back
    into [field] and [inline]. *)
Lemma fieldBody_unfold v k rng :
  fieldBody randString v k rng =
  bind (genRand randString) (fun randID =>
  bind (ifNonEmpty (Properties v) (field randString (Properties v))) (fun fs =>
  bind (inline randString (addlSchema v)) (fun ap =>
  bind (bind (inline randString (itemsSchema v)) (fun inl =>
                match itemsTuple v with
                | [] => ret inl
                | _ :: _ => fail
                end)) (fun it =>
  ret (mkDocNode k randID (Description v) (Type_ v) (Required v) (Enum v)
         (Minimum v) (Maximum v) fs (allows v) ap it))))) rng.
Proof.
  destruct v as [d t r e mn mx props addl its].
  destruct addl as [[al [[d1 t1 r1 e1 mn1 mx1 ps1 a1 i1]|]]|];
    destruct its as [[[[d2 t2 r2 e2 mn2 mx2 ps2 a2 i2]|] tuple]|];
    reflexivity.
Qed.

(** The template ["field"] runs its body on the entries in key order. *)
Lemma field_renderAll m rng :
  field randString m rng = renderAll randString (sortKeys m) rng.
Proof.
  unfold field, rangeMap.
  rewrite (sortKeys_map (fieldBody randString) m).
  revert rng. induction (sortKeys m) as [|kv l IH]; intros rng; [reflexivity|].
  cbn [map forEach renderAll]. unfold bind at 1 3.
  destruct (fieldBody randString (snd kv) (fst kv) rng) as [[x|] rng1];
    [|reflexivity].
  unfold bind. rewrite IH. reflexivity.
Qed.

Lemma ifNonEmpty_field m rng :
  ifNonEmpty m (field randString m) rng = field randString m rng.
Proof.
  unfold ifNonEmpty. destruct m; reflexivity.
Qed.

Lemma inline_run s rng :
  inline randString s rng =
  match s with
  | None => (Some None, rng)
  | Some x =>
      match field randString (Properties x) rng with
      | (Some sub, rng1) =>
          (Some (Some (mkInline (Description x) (Type_ x) sub)), rng1)
      | (None, rng1) => (None, rng1)
      end
  end.
Proof.
  destruct s as [x|]; [|reflexivity].
  unfold inline, bind. rewrite ifNonEmpty_field.
  destruct (field randString (Properties x) rng) as [[sub|] rng1]; reflexivity.
Qed.

(** A successful run of the body, step by step. *)
Lemma fieldBody_some v k rng n rng4 :
  fieldBody randString v k rng = (Some n, rng4) ->
  exists fs rng2 ap rng3 it,
    field randString (Properties v) (snd (randString 10 rng)) = (Some fs, rng2)
    /\ inline randString (addlSchema v) rng2 = (Some ap, rng3)
    /\ inline randString (itemsSchema v) rng3 = (Some it, rng4)
    /\ itemsTuple v = []
    /\ n = mkDocNode k (fst (randString 10 rng)) (Description v) (Type_ v)
             (Required v) (Enum v) (Minimum v) (Maximum v) fs (allows v) ap it.
Proof.
  rewrite fieldBody_unfold. intros H.
  apply bind_some in H. destruct H as (randID & rng1 & Hg & H).
  unfold genRand in Hg. destruct (randString 10 rng) as [s0 r0] eqn:Er.
  injection Hg as <- <-.
  apply bind_some in H. destruct H as (fs & rng2 & Hfs & H).
  rewrite ifNonEmpty_field in Hfs.
  apply bind_some in H. destruct H as (ap & rng3 & Hap & H).
  apply bind_some in H. destruct H as (it & rng4' & Hit & H).
  apply bind_some in Hit. destruct Hit as (inl & rng5 & Hinl & Htup).
  destruct (itemsTuple v) as [|x tuple]; [|discriminate Htup].
  injection Htup as <- <-. injection H as <- <-.
  exists fs, rng2, ap, rng3, inl. cbn [fst snd]. repeat split; assumption.
Qed.

(** ... and back: the steps of a successful run give its result. *)
Lemma fieldBody_build v k rng fs rng2 ap rng3 it rng4 :
  field randString (Properties v) (snd (randString 10 rng)) = (Some fs, rng2) ->
  inline randString (addlSchema v) rng2 = (Some ap, rng3) ->
  inline randString (itemsSchema v) rng3 = (Some it, rng4) ->
  itemsTuple v = [] ->
  fieldBody randString v k rng =
  (Some (mkDocNode k (fst (randString 10 rng)) (Description v) (Type_ v)
           (Required v) (Enum v) (Minimum v) (Maximum v) fs (allows v) ap it),
   rng4).
Proof.
  intros Hfs Hap Hit Htup. rewrite fieldBody_unfold.
  unfold bind at 1. unfold genRand.
  destruct (randString 10 rng) as [s0 r0]. cbn [fst snd] in *.
  unfold bind at 1. rewrite ifNonEmpty_field, Hfs.
  unfold bind at 1. rewrite Hap.
  unfold bind. rewrite Hit, Htup. reflexivity.
Qed.

Lemma inline_fields s rng ap rng1 :
  inline randString s rng = (Some ap, rng1) ->
  field randString (inlineProps s) rng = (Some (inlineFields ap), rng1)
  /\ ap = inlineOf s (inlineFields ap).
Proof.
  rewrite inline_run. destruct s as [x|]; cbn [inlineProps inlineOf].
  - destruct (field randString (Properties x) rng) as [[sub|] r]; [|discriminate].
    intros H. injection H as <- <-. split; reflexivity.
  - intros H. injection H as <- <-. split; reflexivity.
Qed.

(** *** Rule induction over successful runs

    [N] is a property of one run of the body, [L] of one run over a list
    of entries. If [L] is kept by running entry after entry and [N]
    follows from [L] on the three ranges of the body, both hold of every
    successful run. *)
Section RunInduction.

Variable N : JSONSchemaProps -> string -> Rng -> DocNode -> Rng -> Prop.
Variable L : list (string * JSONSchemaProps) -> Rng -> list DocNode -> Rng -> Prop.

Hypothesis L_nil : forall rng, L [] rng [] rng.
Hypothesis L_cons : forall kv l rng n rng1 ps rng2,
    N (snd kv) (fst kv) rng n rng1 -> L l rng1 ps rng2 ->
    L (kv :: l) rng (n :: ps) rng2.
Hypothesis N_step : forall v k rng fs rng2 ap rng3 it rng4,
    L (sortKeys (Properties v)) (snd (randString 10 rng)) fs rng2 ->
    L (sortKeys (inlineProps (addlSchema v))) rng2 (inlineFields ap) rng3 ->
    L (sortKeys (inlineProps (itemsSchema v))) rng3 (inlineFields it) rng4 ->
    ap = inlineOf (addlSchema v) (inlineFields ap) ->
    it = inlineOf (itemsSchema v) (inlineFields it) ->
    itemsTuple v = [] ->
    N v k rng
      (mkDocNode k (fst (randString 10 rng)) (Description v) (Type_ v)
         (Required v) (Enum v) (Minimum v) (Maximum v) fs (allows v) ap it)
      rng4.

Let bodyOk (v : JSONSchemaProps) : Prop :=
  forall k rng n rng1,
    fieldBody randString v k rng = (Some n, rng1) -> N v k rng n rng1.

Lemma renderAll_rule l :
  Forall (fun kv => bodyOk (snd kv)) l ->
  forall rng ps rng1,
    renderAll randString l rng = (Some ps, rng1) -> L l rng ps rng1.
Proof.
  induction 1 as [|kv l Hkv _ IH]; intros rng ps rng1 Hrun.
  - injection Hrun as <- <-. apply L_nil.
  - cbn [renderAll] in Hrun.
    apply bind_some in Hrun. destruct Hrun as (n & r1 & Hn & Hrun).
    apply bind_some in Hrun. destruct Hrun as (xs & r2 & Hxs & Hrun).
    injection Hrun as <- <-.
    eapply L_cons; [apply Hkv, Hn | apply IH, Hxs].
Qed.

Lemma field_rule m :
  Forall (fun kv => bodyOk (snd kv)) m ->
  forall rng ps rng1,
    field randString m rng = (Some ps, rng1) -> L (sortKeys m) rng ps rng1.
Proof.
  intros Hm rng ps rng1 Hrun. rewrite field_renderAll in Hrun.
  refine (renderAll_rule _ _ _ _ _ Hrun).
  eapply Permutation_Forall; [symmetry; apply sortKeys_perm | exact Hm].
Qed.

Theorem fieldBody_run_ind v : bodyOk v.
Proof.
  induction v as [v IH] using schema_visit_ind.
  apply visited_split in IH. destruct IH as (IHp & IHa & IHi).
  intros k rng n rng4 Hrun.
  apply fieldBody_some in Hrun.
  destruct Hrun as (fs & rng2 & ap & rng3 & it & Hfs & Hap & Hit & Htup & ->).
  apply inline_fields in Hap. destruct Hap as [Hap Eap].
  apply inline_fields in Hit. destruct Hit as [Hit Eit].
  apply (N_step v k rng fs rng2 ap rng3 it rng4); try assumption.
  - apply (field_rule _ IHp _ _ _ Hfs).
  - apply (field_rule _ IHa _ _ _ Hap).
  - apply (field_rule _ IHi _ _ _ Hit).
Qed.

Theorem field_run_ind m rng ps rng1 :
  field randString m rng = (Some ps, rng1) -> L (sortKeys m) rng ps rng1.
Proof.
  apply field_rule. apply Forall_forall. intros kv _.
  apply fieldBody_run_ind.
Qed.

End RunInduction.

End TemplateFacts.

(* ================================================================== *)
(** * Unfolding the measures *)
(* ================================================================== *)

Lemma ids_node k i d t r e mn mx fs al ap it :
  ids (mkDocNode k i d t r e mn mx fs al ap it)
  = i :: flat_map ids fs ++ flat_map ids (inlineFields ap)
        ++ flat_map ids (inlineFields it).
Proof. destruct ap as [[? ? ?]|], it as [[? ? ?]|]; reflexivity. Qed.

Lemma nodeCount_node k i d t r e mn mx fs al ap it :
  nodeCount (mkDocNode k i d t r e mn mx fs al ap it)
  = S (totalCount fs + totalCount (inlineFields ap)
       + totalCount (inlineFields it)).
Proof. destruct ap as [[? ? ?]|], it as [[? ? ?]|]; reflexivity. Qed.


Lemma ordered_node k i d t r e mn mx fs al ap it :
  ordered (mkDocNode k i d t r e mn mx fs al ap it)
  = (sortedb (map key fs) && forallb ordered fs
     && (sortedb (map key (inlineFields ap)) && forallb ordered (inlineFields ap))
     && (sortedb (map key (inlineFields it)) && forallb ordered (inlineFields it))).
Proof. destruct ap as [[? ? ?]|], it as [[? ? ?]|]; reflexivity. Qed.

Lemma eraseIds_node k i d t r e mn mx fs al ap it :
  eraseIds (mkDocNode k i d t r e mn mx fs al ap it)
  = mkDocNode k "" d t r e mn mx (map eraseIds fs) al
      (eraseInline ap) (eraseInline it).
Proof. reflexivity. Qed.

Lemma eraseInline_inlineOf s sub :
  eraseInline (inlineOf s sub) = inlineOf s (map eraseIds sub).
Proof. destruct s; reflexivity. Qed.


Lemma renders_unfold v :
  renders v
  = (forallb (fun kv => renders (snd kv)) (Properties v)
     && forallb (fun kv => renders (snd kv)) (inlineProps (addlSchema v))
     && (forallb (fun kv => renders (snd kv)) (inlineProps (itemsSchema v))
         && match itemsTuple v with [] => true | _ :: _ => false end)).
Proof.
  destruct v as [d t r e mn mx props addl its].
  destruct addl as [[al [[d1 t1 r1 e1 mn1 mx1 ps1 a1 i1]|]]|];
    destruct its as [[[[d2 t2 r2 e2 mn2 mx2 ps2 a2 i2]|] tuple]|];
    cbn; rewrite ?andb_true_r; reflexivity.
Qed.

Lemma forallb_perm {A : Type} (f : A -> bool) (l l' : list A) :
  Permutation l l' -> forallb f l = true -> forallb f l' = true.
Proof.
  intros Hp H. apply forallb_forall. intros x Hx.
  rewrite forallb_forall in H. apply H.
  eapply Permutation_in; [symmetry; exact Hp | exact Hx].
Qed.

Lemma totalCount_cons n ps : totalCount (n :: ps) = nodeCount n + totalCount ps.
Proof. reflexivity. Qed.

Lemma children_node k i d t r e mn mx fs al ap it :
  children (mkDocNode k i d t r e mn mx fs al ap it)
  = fs ++ inlineFields ap ++ inlineFields it.
Proof. reflexivity. Qed.

(* ================================================================== *)
(** * What every successful run satisfies *)
(* ================================================================== *)

Section RunFacts.

Context {Rng : Type} (randString : nat -> Rng -> string * Rng).

(** One [genRand] call per panel, in printing order. *)
Lemma field_ids m rng ps rng1 :
  field randString m rng = (Some ps, rng1) ->
  flat_map ids ps = draws randString (totalCount ps) rng
  /\ rng1 = skip randString (totalCount ps) rng.
Proof.
  apply (field_run_ind randString
           (fun _ _ r n r1 => ids n = draws randString (nodeCount n) r
                              /\ r1 = skip randString (nodeCount n) r)
           (fun _ r l r1 => flat_map ids l = draws randString (totalCount l) r
                            /\ r1 = skip randString (totalCount l) r)).
  - intros r. split; reflexivity.
  - intros kv l r n r1 l' r2 [Hn ->] [Hl ->].
    rewrite totalCount_cons. cbn [flat_map].
    rewrite draws_add, skip_add, Hn, Hl. split; reflexivity.
  - intros v k r fs r2 ap r3 it r4 [Hf ->] [Ha ->] [Hi ->] _ _ _.
    rewrite ids_node, nodeCount_node.
    cbn [draws skip]. rewrite !draws_add, !skip_add, Hf, Ha, Hi.
    rewrite <- app_assoc. split; reflexivity.
Qed.

(** Panels carry the keys of the map, in sorted order, at every level. *)
Lemma field_keys m rng ps rng1 :
  field randString m rng = (Some ps, rng1) ->
  map key ps = map fst (sortKeys m) /\ forallb ordered ps = true.
Proof.
  apply (field_run_ind randString
           (fun _ k _ n _ => key n = k /\ ordered n = true)
           (fun l _ ps _ => map key ps = map fst l /\ forallb ordered ps = true)).
  - intros r. split; reflexivity.
  - intros kv l r n r1 l' r2 [Hk Ho] [Hks Hos]. cbn [map forallb].
    rewrite Hk, Hks, Ho, Hos. split; reflexivity.
  - intros v k r fs r2 ap r3 it r4 [Kf Of] [Ka Oa] [Ki Oi] _ _ _.
    split; [reflexivity|].
    rewrite ordered_node, Kf, Ka, Ki, Of, Oa, Oi, !sortKeys_sorted.
    reflexivity.
Qed.


(** A run succeeds only on schemas free of tuple-form items. *)
Lemma field_renders m rng ps rng1 :
  field randString m rng = (Some ps, rng1) ->
  forallb (fun kv => renders (snd kv)) m = true.
Proof.
  intros H. apply (forallb_perm _ _ _ (sortKeys_perm m)). revert H.
  apply (field_run_ind randString
           (fun v _ _ _ _ => renders v = true)
           (fun l _ _ _ => forallb (fun kv => renders (snd kv)) l = true)).
  - reflexivity.
  - intros kv l r n r1 l' r2 Hn Hl. cbn [forallb]. now rewrite Hn, Hl.
  - intros v k r fs r2 ap r3 it r4 Hf Ha Hi _ _ Htup.
    rewrite renders_unfold, Htup.
    rewrite (forallb_perm _ _ _ (sortKeys_perm _) Hf).
    rewrite (forallb_perm _ _ _ (sortKeys_perm _) Ha).
    rewrite (forallb_perm _ _ _ (sortKeys_perm _) Hi).
    reflexivity.
Qed.

Lemma inline_blank s ap :
  ap = inlineOf s (inlineFields ap) ->
  renderAll blank (sortKeys (inlineProps s)) tt
  = (Some (map eraseIds (inlineFields ap)), tt) ->
  inline blank s tt = (Some (eraseInline ap), tt).
Proof.
  intros E H. rewrite inline_run. destruct s as [x|]; cbn [inlineProps] in *.
  - rewrite field_renderAll, H, E. reflexivity.
  - rewrite E. reflexivity.
Qed.

(** Blanking the ids of a run gives the run with the blank generator:
    apart from the ids, the output does not depend on the generator. *)
Lemma field_blank m rng ps rng1 :
  field randString m rng = (Some ps, rng1) ->
  field blank m tt = (Some (map eraseIds ps), tt).
Proof.
  intros H. rewrite field_renderAll. revert H.
  apply (field_run_ind randString
           (fun v k _ n _ => fieldBody blank v k tt = (Some (eraseIds n), tt))
           (fun l _ ps _ => renderAll blank l tt = (Some (map eraseIds ps), tt))).
  - reflexivity.
  - intros kv l r n r1 l' r2 Hn Hl. cbn [renderAll map].
    rewrite (bind_run _ _ _ _ _ Hn), (bind_run _ _ _ _ _ Hl). reflexivity.
  - intros v k r fs r2 ap r3 it r4 Hf Ha Hi Ea Ei Htup.
    rewrite eraseIds_node.
    apply (fieldBody_build blank v k tt (map eraseIds fs) tt
             (eraseInline ap) tt (eraseInline it) tt).
    + rewrite field_renderAll. exact Hf.
    + apply inline_blank; assumption.
    + apply inline_blank; assumption.
    + exact Htup.
Qed.

(** *** Totality *)

Let succeeds (v : JSONSchemaProps) : Prop :=
  renders v = true ->
  forall k rng, exists n rng1, fieldBody randString v k rng = (Some n, rng1).

Lemma renderAll_total l :
  Forall (fun kv => succeeds (snd kv)) l ->
  forallb (fun kv => renders (snd kv)) l = true ->
  forall rng, exists ps rng1, renderAll randString l rng = (Some ps, rng1).
Proof.
  induction 1 as [|kv l Hkv _ IH]; intros Hr rng.
  - exists [], rng. reflexivity.
  - cbn [forallb] in Hr. apply andb_true_iff in Hr. destruct Hr as [Hr1 Hr2].
    destruct (Hkv Hr1 (fst kv) rng) as (n & r1 & Hn).
    destruct (IH Hr2 r1) as (ps & r2 & Hps).
    exists (n :: ps), r2. cbn [renderAll].
    rewrite (bind_run _ _ _ _ _ Hn), (bind_run _ _ _ _ _ Hps). reflexivity.
Qed.

Lemma field_total_from m :
  Forall (fun kv => succeeds (snd kv)) m ->
  forallb (fun kv => renders (snd kv)) m = true ->
  forall rng, exists ps rng1, field randString m rng = (Some ps, rng1).
Proof.
  intros Hm Hr rng. rewrite field_renderAll. apply renderAll_total.
  - eapply Permutation_Forall; [symmetry; apply sortKeys_perm | exact Hm].
  - apply (forallb_perm _ m); [symmetry; apply sortKeys_perm | exact Hr].
Qed.

Lemma inline_total_from s :
  Forall (fun kv => succeeds (snd kv)) (inlineProps s) ->
  forallb (fun kv => renders (snd kv)) (inlineProps s) = true ->
  forall rng, exists ap rng1, inline randString s rng = (Some ap, rng1).
Proof.
  intros Hm Hr rng. rewrite inline_run. destruct s as [x|]; cbn [inlineProps] in *.
  - destruct (field_total_from _ Hm Hr rng) as (ps & r1 & ->). eauto.
  - eauto.
Qed.

Lemma fieldBody_total v : succeeds v.
Proof.
  induction v as [v IH] using schema_visit_ind.
  apply visited_split in IH. destruct IH as (IHp & IHa & IHi).
  intros Hr k rng. rewrite renders_unfold in Hr.
  apply andb_true_iff in Hr. destruct Hr as [Hr Hi].
  apply andb_true_iff in Hr. destruct Hr as [Hp Ha].
  apply andb_true_iff in Hi. destruct Hi as [Hi Htup].
  destruct (field_total_from _ IHp Hp (snd (randString 10 rng))) as (fs & r2 & Hfs).
  destruct (inline_total_from _ IHa Ha r2) as (ap & r3 & Hap).
  destruct (inline_total_from _ IHi Hi r3) as (it & r4 & Hit).
  destruct (itemsTuple v) as [|x tuple] eqn:Et; [|discriminate Htup].
  eexists; eexists.
  apply (fieldBody_build randString v k rng fs r2 ap r3 it r4); assumption.
Qed.

Lemma field_total m rng :
  forallb (fun kv => renders (snd kv)) m = true ->
  exists ps rng1, field randString m rng = (Some ps, rng1).
Proof.
  intros Hr. apply field_total_from; [|exact Hr].
  apply Forall_forall. intros kv _. apply fieldBody_total.
Qed.

End RunFacts.

(* ================================================================== *)
(** * Every level has all its panels *)
(* ================================================================== *)

(** A successful run leaves out nothing: at every level there is one
    panel for each entry the template ranges over, under its key and in
    key order. *)
Lemma field_follows {Rng : Type} (randString : nat -> Rng -> string * Rng)
      m rng ps rng1 :
  field randString m rng = (Some ps, rng1) ->
  Forall2 FollowsEntry (sortKeys m) ps.
Proof.
  apply (field_run_ind randString
           (fun v k _ n _ => key n = k /\ Follows v n)
           (fun l _ ps _ => Forall2 FollowsEntry l ps)).
  - constructor.
  - intros kv l r n r1 l' r2 Hn Hl. constructor; [exact Hn | exact Hl].
  - intros v k r fs r2 ap r3 it r4 Hf Ha Hi _ _ _.
    split; [reflexivity|]. constructor; assumption.
Qed.

(* ================================================================== *)
(** * Two listings of one schema *)
(* ================================================================== *)

Lemma distinctb_NoDup (l : list string) : distinctb l = true -> NoDup l.
Proof.
  induction l as [|a l IH]; [constructor|].
  cbn [distinctb]. intros H. apply andb_true_iff in H. destruct H as [Ha Hl].
  constructor; [|apply IH, Hl].
  intros Hin. apply negb_true_iff in Ha.
  assert (E : existsb (String.eqb a) l = true)
    by (apply existsb_exists; exists a; split; [exact Hin | apply String.eqb_refl]).
  congruence.
Qed.

Lemma wellKeyed_unfold v :
  wellKeyed v
  = (wellKeyedMap (Properties v)
     && wellKeyedMap (inlineProps (addlSchema v))
     && wellKeyedMap (inlineProps (itemsSchema v))).
Proof.
  destruct v as [d t r e mn mx props addl its].
  destruct addl as [[al [[d1 t1 r1 e1 mn1 mx1 ps1 a1 i1]|]]|];
    destruct its as [[[[d2 t2 r2 e2 mn2 mx2 ps2 a2 i2]|] tuple]|];
    cbn; rewrite ?andb_true_r; reflexivity.
Qed.

Section KeyedPairs.

(** Entries of two lists that go in pairs with equal keys are sorted
    into pairs again. *)
Context {V W : Type} (R : string * V -> string * W -> Prop).
Hypothesis R_keys : forall a b, R a b -> fst a = fst b.

Lemma Forall2_insertKey a b l l' :
  R a b -> Forall2 R l l' -> Forall2 R (insertKey a l) (insertKey b l').
Proof.
  intros Hab H. induction H as [|x y l l' Hxy Hl IH]; cbn [insertKey].
  - repeat constructor. exact Hab.
  - rewrite <- (R_keys _ _ Hab), <- (R_keys _ _ Hxy).
    destruct (String.leb (fst a) (fst x)).
    + constructor; [exact Hab|]. constructor; assumption.
    + constructor; assumption.
Qed.

Lemma Forall2_sortKeys l l' :
  Forall2 R l l' -> Forall2 R (sortKeys l) (sortKeys l').
Proof.
  induction 1 as [|x y l l' Hxy _ IH]; cbn [sortKeys]; [constructor|].
  now apply Forall2_insertKey.
Qed.

End KeyedPairs.

Lemma Forall2_strengthen {A B : Type} (P : A -> Prop) (R R' : A -> B -> Prop)
      (l : list A) (l' : list B) :
  (forall a b, P a -> R a b -> R' a b) ->
  Forall P l -> Forall2 R l l' -> Forall2 R' l l'.
Proof.
  intros Himp HP H. induction H as [|a b l l' Hab _ IH]; [constructor|].
  inversion HP; subst. constructor; [now apply Himp | now apply IH].
Qed.

Lemma bind_ext {S A B : Type} (m m' : Exec S A) (f f' : A -> Exec S B) :
  (forall r, m r = m' r) -> (forall a r, f a r = f' a r) ->
  forall r, bind m f r = bind m' f' r.
Proof.
  intros Hm Hf r. unfold bind. rewrite Hm.
  destruct (m' r) as [[a|] r1]; [apply Hf | reflexivity].
Qed.

Lemma renderAll_same l1 l2 :
  Forall2 (fun a b => fst a = fst b /\ sameBody (snd a) (snd b)) l1 l2 ->
  forall u, renderAll blank l1 u = renderAll blank l2 u.
Proof.
  induction 1 as [|a b l1 l2 [Hk Hb] _ IH]; intros u; [reflexivity|].
  cbn [renderAll]. rewrite Hk. apply bind_ext; [apply Hb|].
  intros x r. apply bind_ext; [apply IH | reflexivity].
Qed.

Lemma field_same m1 m2 :
  Forall (fun a => forall v2, SameSchema (snd a) v2 ->
                              wellKeyed (snd a) = true -> sameBody (snd a) v2) m1 ->
  SameMap m1 m2 -> wellKeyedMap m1 = true ->
  forall u, field blank m1 u = field blank m2 u.
Proof.
  intros IH (listed & Hperm & Hpairs) Hk u.
  unfold wellKeyedMap in Hk. apply andb_true_iff in Hk. destruct Hk as [Hd Hw].
  rewrite !field_renderAll.
  rewrite (sortKeys_unique m1 listed Hperm (distinctb_NoDup _ Hd)).
  apply renderAll_same.
  apply (Forall2_sortKeys
           (fun a b => fst a = fst b /\ sameBody (snd a) (snd b)));
    [intros a b [E _]; exact E|].
  apply (Forall2_strengthen
           (fun a => (forall v2, SameSchema (snd a) v2 ->
                                 wellKeyed (snd a) = true -> sameBody (snd a) v2)
                     /\ wellKeyed (snd a) = true)
           SameEntry); [| |exact Hpairs].
  - intros a b [Ha Hwa] [E Hs]. split; [exact E | now apply Ha].
  - apply (Permutation_Forall Hperm). apply Forall_forall. intros a Hin.
    split.
    + rewrite Forall_forall in IH. now apply IH.
    + rewrite forallb_forall in Hw. now apply Hw.
Qed.

Lemma SameSchema_inv v1 v2 :
  SameSchema v1 v2 ->
  Description v1 = Description v2 /\ Type_ v1 = Type_ v2
  /\ Required v1 = Required v2 /\ Enum v1 = Enum v2
  /\ Minimum v1 = Minimum v2 /\ Maximum v1 = Maximum v2
  /\ SameMap (Properties v1) (Properties v2)
  /\ allows v1 = allows v2
  /\ OptionRel SameSchema (addlSchema v1) (addlSchema v2)
  /\ OptionRel SameSchema (itemsSchema v1) (itemsSchema v2)
  /\ (itemsTuple v1 = [] <-> itemsTuple v2 = []).
Proof.
  intros H. inversion H as [d t r e mn mx p1 listed p2 a1 a2 i1 i2 Hp Hf Ha Hi];
    subst. cbn [Description Type_ Required Enum Minimum Maximum Properties].
  repeat (split; [reflexivity|]).
  split; [now exists listed|].
  unfold allows, addlSchema, itemsSchema, itemsTuple.
  cbn [AdditionalProperties Items].
  split; [destruct Ha as [|x y [Hal _]]; [reflexivity | exact Hal]|].
  split; [destruct Ha as [|x y [_ Hs]]; [constructor | exact Hs]|].
  split; [destruct Hi as [|x y [Hs _]]; [constructor | exact Hs]|].
  destruct Hi as [|x y [_ Ht]]; [tauto|].
  destruct Ht; split; intros E; try reflexivity; discriminate E.
Qed.

Lemma inline_same s1 s2 :
  Forall (fun a => forall v2, SameSchema (snd a) v2 ->
                              wellKeyed (snd a) = true -> sameBody (snd a) v2)
         (inlineProps s1) ->
  OptionRel SameSchema s1 s2 -> wellKeyedMap (inlineProps s1) = true ->
  forall u, inline blank s1 u = inline blank s2 u.
Proof.
  intros IH Hs Hk u. destruct Hs as [|x y Hxy]; [reflexivity|].
  apply SameSchema_inv in Hxy.
  destruct Hxy as (Hd & Ht & _ & _ & _ & _ & Hm & _).
  rewrite !inline_run. cbn [inlineProps] in *.
  rewrite (field_same _ _ IH Hm Hk u), Hd, Ht. reflexivity.
Qed.

(** Ids aside, the body builds the same panel for two listings of one
    schema. *)
Lemma fieldBody_same v1 :
  forall v2, SameSchema v1 v2 -> wellKeyed v1 = true -> sameBody v1 v2.
Proof.
  induction v1 as [v1 IH] using schema_visit_ind.
  apply (visited_split
           (fun x => forall v2, SameSchema x v2 ->
                                wellKeyed x = true -> sameBody x v2)) in IH.
  destruct IH as (IHp & IHa & IHi).
  intros v2 Hs Hk k u. rewrite wellKeyed_unfold in Hk.
  apply andb_true_iff in Hk. destruct Hk as [Hk Hki].
  apply andb_true_iff in Hk. destruct Hk as [Hkp Hka].
  apply SameSchema_inv in Hs.
  destruct Hs as (Hd & Ht & Hr & He & Hmn & Hmx & Hm & Hal & Hsa & Hsi & Htup).
  rewrite !fieldBody_unfold, Hd, Ht, Hr, He, Hmn, Hmx, Hal.
  apply bind_ext; [reflexivity|]. intros randID r.
  apply bind_ext.
  { intros r0. rewrite !ifNonEmpty_field. now apply field_same. }
  intros fs r0. apply bind_ext; [now apply inline_same|]. intros ap r1.
  apply bind_ext; [|reflexivity].
  apply bind_ext; [now apply inline_same|]. intros inl r2.
  destruct (itemsTuple v1) as [|x1 t1], (itemsTuple v2) as [|x2 t2];
    try reflexivity.
  - destruct Htup as [Htup _]. discriminate (Htup eq_refl).
  - destruct Htup as [_ Htup]. discriminate (Htup eq_refl).
Qed.

Lemma field_same_listing m1 m2 :
  SameMap m1 m2 -> wellKeyedMap m1 = true ->
  field blank m1 tt = field blank m2 tt.
Proof.
  intros Hs Hk. apply field_same; [|exact Hs | exact Hk].
  apply Forall_forall. intros a _. apply fieldBody_same.
Qed.

(* ================================================================== *)
(** * The handler as a whole *)
(* ================================================================== *)

Lemma doc_rendered {Rng : Type} (randString : nat -> Rng -> string * Rng)
      org repo tag crd rng page rng1 :
  doc randString org repo tag crd rng = (Rendered page, rng1) ->
  exists schema,
    resolveSchema crd = inr schema
    /\ field randString (Properties schema) rng = (Some (accordion page), rng1).
Proof.
  unfold doc. destruct (resolveSchema crd) as [e|schema]; [discriminate|].
  unfold docTemplate, bind. rewrite ifNonEmpty_field.
  destruct (field randString (Properties schema) rng) as [[acc|] r] eqn:E;
    [|discriminate].
  cbn. intros H. injection H as <- <-. exists schema.
  split; [reflexivity | exact E].
Qed.

(** A non-empty [Items.JSONSchemas] ends the execution with an error. *)
Lemma tuple_items_abort {Rng : Type} (randString : nat -> Rng -> string * Rng)
      v k rng :
  itemsTuple v <> [] -> fst (fieldBody randString v k rng) = None.
Proof.
  intros Htup.
  destruct (fieldBody randString v k rng) as [[n|] r] eqn:E; [|reflexivity].
  apply fieldBody_some in E.
  destruct E as (? & ? & ? & ? & ? & _ & _ & _ & E & _). contradiction.
Qed.

(* ================================================================== *)
(** * Anchor ids *)
(* ================================================================== *)

(** C2, as stated, fails: nothing compares the tokens, so when the
    generator returns the same token twice in a pass, two panels share
    their id. *)
Lemma C2_ids_collide_counterexample :
  exists ps rng1,
    field replay (Properties schemaAB) collision = (Some ps, rng1)
    /\ totalCount ps = 2
    /\ flat_map ids ps = ["bcdfghjklm"; "bcdfghjklm"]
    /\ ~ NoDup (flat_map ids ps).
Proof.
  eexists; eexists. split; [reflexivity|]. split; [reflexivity|].
  split; [reflexivity|]. cbn. intros H. inversion H as [|? ? Hnotin _].
  apply Hnotin. now left.
Qed.

(** C2 (amended): in one pass of the handler every panel takes the result
    of its own [genRand] call: the ids, in printing order, are the next
    results of the generator, as many as there are panels. The ids are
    pairwise distinct exactly when those results are. *)
Theorem C2_ids_are_the_draws {Rng : Type}
        (randString : nat -> Rng -> string * Rng)
        org repo tag crd rng page rng1 :
  doc randString org repo tag crd rng = (Rendered page, rng1) ->
  flat_map ids (accordion page)
  = draws randString (totalCount (accordion page)) rng
  /\ List.length (flat_map ids (accordion page)) = totalCount (accordion page)
  /\ rng1 = skip randString (totalCount (accordion page)) rng
  /\ (NoDup (flat_map ids (accordion page))
      <-> NoDup (draws randString (totalCount (accordion page)) rng)).
Proof.
  intros H. apply doc_rendered in H. destruct H as (schema & _ & H).
  apply field_ids in H. destruct H as [Hids Hrng].
  rewrite Hids, draws_length. repeat split; try assumption; auto.
Qed.

Lemma C2_ids_are_the_draws_witness :
  exists page rng1,
    doc replay "crdsdev" "doc" "" (crdPlain schemaAB) tokens = (Rendered page, rng1)
    /\ flat_map ids (accordion page) = ["bcdfghjklm"; "npqrstvwxz"]
    /\ NoDup (flat_map ids (accordion page)).
Proof.
  eexists; eexists. split; [reflexivity|].
  destruct (C2_ids_are_the_draws replay "crdsdev" "doc" "" (crdPlain schemaAB)
              tokens _ _ eq_refl) as (Hids & _ & _ & Hnd).
  split; [exact Hids|]. apply Hnd. cbn.
  constructor; [intros [H|[]]; discriminate H|].
  constructor; [intros []|constructor].
Defined.

(* ================================================================== *)
(** * Depth *)
(* ================================================================== *)











(* ================================================================== *)
(** * Order of the children *)
(* ================================================================== *)

(** C4: two builds of one properties map, its entries and the entries
    of every map below it listed in any order, with any generator and
    from any generator state, give the same panels up to their ids: the
    same keys, the same printed values, the same nesting, the same
    order. At every level the panels are those of the entries the
    template ranges over, one each, in ascending key order. *)
Theorem C4_child_order_deterministic {Rng1 Rng2 : Type}
        (randString1 : nat -> Rng1 -> string * Rng1)
        (randString2 : nat -> Rng2 -> string * Rng2)
        m1 m2 g1 g2 ps1 ps2 g1' g2' :
  SameMap m1 m2 -> wellKeyedMap m1 = true ->
  field randString1 m1 g1 = (Some ps1, g1') ->
  field randString2 m2 g2 = (Some ps2, g2') ->
  map eraseIds ps1 = map eraseIds ps2
  /\ Forall2 FollowsEntry (sortKeys m1) ps1
  /\ map key ps1 = map fst (sortKeys m1)
  /\ sortedb (map key ps1) = true
  /\ forallb ordered ps1 = true.
Proof.
  intros Hs Hk H1 H2.
  pose proof (field_blank _ _ _ _ _ H1) as B1.
  pose proof (field_blank _ _ _ _ _ H2) as B2.
  rewrite (field_same_listing m1 m2 Hs Hk), B2 in B1.
  destruct (field_keys _ _ _ _ _ H1) as [Hkeys Ho].
  split; [congruence|]. split; [apply (field_follows _ _ _ _ _ H1)|].
  split; [exact Hkeys|]. split; [|exact Ho].
  rewrite Hkeys. apply sortKeys_sorted.
Qed.

Lemma C4_child_order_deterministic_witness :
  exists ps1 ps2 g1 g2,
    field replay listingA tokens = (Some ps1, g1)
    /\ field blank listingB tt = (Some ps2, g2)
    /\ map eraseIds ps1 = map eraseIds ps2
    /\ map key ps1 = ["kind"; "spec"]
    /\ map (fun n => map key (fields n)) ps1 = [[]; ["x"; "y"]].
Proof.
  eexists; eexists; eexists; eexists.
  split; [reflexivity|]. split; [reflexivity|].
  assert (Hleaf : forall t, SameSchema (leaf t) (leaf t)).
  { intros t. apply SameSchema_node with (listed := []); constructor. }
  assert (Hsame : SameMap listingA listingB).
  { exists [ ("kind", leaf "string");
             ("spec", object [("y", leaf "integer");
                              ("x", object [("q", leaf "string");
                                            ("p", leaf "string")])]) ].
    split; [apply perm_swap|].
    constructor; [split; [reflexivity | apply Hleaf]|].
    constructor; [|constructor]. split; [reflexivity|].
    apply SameSchema_node
      with (listed := [("x", object [("q", leaf "string"); ("p", leaf "string")]);
                       ("y", leaf "integer")]);
      [apply perm_swap | | constructor | constructor].
    constructor; [|constructor; [split; [reflexivity | apply Hleaf] | constructor]].
    split; [reflexivity|].
    apply SameSchema_node
      with (listed := [("p", leaf "string"); ("q", leaf "string")]);
      [apply perm_swap | | constructor | constructor].
    repeat constructor; apply Hleaf. }
  destruct (C4_child_order_deterministic replay blank listingA listingB
              tokens tt _ _ _ _ Hsame eq_refl eq_refl eq_refl)
    as (He & _ & Hk & _).
  split; [exact He|]. split; [exact Hk | reflexivity].
Defined.

(* ================================================================== *)
(** * Items and additionalProperties *)
(* ================================================================== *)

(** C6, as stated, fails: for [{type: array, items: {type: string}}] the
    panel has no nested panel at all, so none labelled "items"; the item
    schema is printed into the panel itself. *)
Lemma C6_items_child_counterexample :
  exists n,
    fieldBody blank schemaArray "tags" tt = (Some n, tt)
    /\ children n = []
    /\ items n = Some (mkInline "" "string" [])
    /\ typeLabel n = "array".
Proof.
  eexists. repeat split; reflexivity.
Qed.

(** C6 (amended): for [items] in single-schema form the template makes
    no panel for the item schema itself: it prints the item schema's
    description and type into the enclosing panel and runs the field
    template on the item schema's properties. What [items] adds to the
    nested panels of the enclosing one, after all the others, is one
    panel per property of the item schema, labelled by the property
    names in key order; so a nested panel is labelled "items" only when
    the item schema has a property of that name. *)
Theorem C6_single_items_inline {Rng : Type}
        (randString : nat -> Rng -> string * Rng) v k rng n rng1 s :
  Items v = Some (mkJSONSchemaPropsOrArray (Some s) []) ->
  fieldBody randString v k rng = (Some n, rng1) ->
  exists sub rng0,
    field randString (Properties s) rng0 = (Some sub, rng1)
    /\ items n = Some (mkInline (Description s) (Type_ s) sub)
    /\ map key sub = map fst (sortKeys (Properties s))
    /\ children n = fields n ++ inlineFields (additionalProperties n) ++ sub
    /\ List.length sub = List.length (Properties s)
    /\ (forall label, In label (map key sub)
                      <-> In label (map fst (Properties s))).
Proof.
  intros Hit H. apply fieldBody_some in H.
  destruct H as (fs & r2 & ap & r3 & it & _ & _ & Hrun & _ & ->).
  assert (Es : itemsSchema v = Some s) by (unfold itemsSchema; now rewrite Hit).
  rewrite Es in Hrun. apply inline_fields in Hrun.
  destruct Hrun as [Hrun Eit]. cbn [inlineProps inlineOf] in Hrun, Eit.
  exists (inlineFields it), r3. split; [exact Hrun|].
  split; [exact Eit|].
  destruct (field_keys _ _ _ _ _ Hrun) as [Hk _].
  split; [exact Hk|]. split; [reflexivity|].
  pose proof (Permutation_map fst (sortKeys_perm (Properties s))) as Hp.
  split.
  - rewrite <- (length_map key), Hk, length_map.
    apply Permutation_length, sortKeys_perm.
  - intros label. rewrite Hk. split; intros Hin.
    + eapply Permutation_in; [exact Hp | exact Hin].
    + eapply Permutation_in; [symmetry; exact Hp | exact Hin].
Qed.

Lemma C6_single_items_inline_witness :
  (exists n rng1 sub rng0,
     fieldBody replay schemaArrayOfObjects "tags" tokens = (Some n, rng1)
     /\ field replay [("x", leaf "string")] rng0 = (Some sub, rng1)
     /\ items n = Some (mkInline "" "object" sub)
     /\ map key sub = ["x"]
     /\ children n = sub)
  /\ (exists n rng1,
        fieldBody replay schemaItemsNamedItems "tags" tokens = (Some n, rng1)
        /\ map key (children n) = ["items"]).
Proof.
  split.
  - destruct (C6_single_items_inline replay schemaArrayOfObjects "tags" tokens
                _ _ (object [("x", leaf "string")]) eq_refl eq_refl)
      as (sub & rng0 & H1 & H2 & H3 & H4 & _).
    eexists; eexists; exists sub, rng0.
    split; [reflexivity|]. split; [exact H1|]. split; [exact H2|].
    split; [exact H3 | exact H4].
  - destruct (C6_single_items_inline replay schemaItemsNamedItems "tags" tokens
                _ _ (object [("items", leaf "string")]) eq_refl eq_refl)
      as (sub & rng0 & _ & _ & H3 & H4 & _).
    eexists; eexists. split; [reflexivity|].
    refine (eq_trans (f_equal (map key) H4) _). exact H3.
Defined.

(** C7, as stated, fails: for [additionalProperties] holding a schema
    with properties [x] and [y] the panel gets two nested panels, labelled
    [x] and [y]; none is labelled "additionalProperties". *)
Lemma C7_additional_child_counterexample :
  exists n,
    fieldBody blank schemaMapOfObjects "labels" tt = (Some n, tt)
    /\ map key (children n) = ["x"; "y"]
    /\ ~ In "additionalProperties" (map key (children n)).
Proof.
  eexists. split; [reflexivity|]. split; [reflexivity|].
  cbn. intros [H|[H|[]]]; discriminate H.
Qed.

(** C7 (amended): the "allowed" flag of a panel is the [Allows] field
    whenever [additionalProperties] is present, and false when it is
    absent. Without a nested schema (a boolean, or absent) nothing else is
    printed and no panel is nested for it. With a nested schema the
    template makes no panel for that schema itself: it prints its
    description and type into the enclosing panel and runs the field
    template on its properties, which adds one nested panel per property
    of the nested schema, labelled by the property names in key order; so
    a nested panel is labelled "additionalProperties" only when the
    nested schema has a property of that name. *)
Theorem C7_additional_properties {Rng : Type}
        (randString : nat -> Rng -> string * Rng) v k rng n rng1 :
  fieldBody randString v k rng = (Some n, rng1) ->
  match AdditionalProperties v with
  | None =>
      additionalPropertiesAllowed n = false
      /\ additionalProperties n = None
      /\ children n = fields n ++ inlineFields (items n)
  | Some (mkJSONSchemaPropsOrBool allowed None) =>
      additionalPropertiesAllowed n = allowed
      /\ additionalProperties n = None
      /\ children n = fields n ++ inlineFields (items n)
  | Some (mkJSONSchemaPropsOrBool allowed (Some s)) =>
      additionalPropertiesAllowed n = allowed
      /\ exists sub rng2 rng3,
           field randString (Properties s) rng2 = (Some sub, rng3)
           /\ additionalProperties n
              = Some (mkInline (Description s) (Type_ s) sub)
           /\ map key sub = map fst (sortKeys (Properties s))
           /\ children n = fields n ++ sub ++ inlineFields (items n)
           /\ List.length sub = List.length (Properties s)
           /\ (forall label, In label (map key sub)
                             <-> In label (map fst (Properties s)))
  end.
Proof.
  intros H. apply fieldBody_some in H.
  destruct H as (fs & r2 & ap & r3 & it & _ & Hrun & _ & _ & ->).
  apply inline_fields in Hrun. destruct Hrun as [Hrun Eap].
  unfold addlSchema, allows in *.
  destruct (AdditionalProperties v) as [[allowed [s|]]|];
    cbn [OrBool_Schema Allows inlineProps inlineOf] in *.
  - split; [reflexivity|]. exists (inlineFields ap), r2, r3.
    split; [exact Hrun|]. split; [exact Eap|].
    destruct (field_keys _ _ _ _ _ Hrun) as [Hk _].
    split; [exact Hk|]. split; [reflexivity|].
    pose proof (Permutation_map fst (sortKeys_perm (Properties s))) as Hp.
    split.
    + rewrite <- (length_map key), Hk, length_map.
      apply Permutation_length, sortKeys_perm.
    + intros label. rewrite Hk. split; intros Hin.
      * eapply Permutation_in; [exact Hp | exact Hin].
      * eapply Permutation_in; [symmetry; exact Hp | exact Hin].
  - subst ap. repeat split; reflexivity.
  - subst ap. repeat split; reflexivity.
Qed.

Lemma C7_additional_properties_witness :
  (exists n rng1,
     fieldBody replay (schemaOpen true) "labels" tokens = (Some n, rng1)
     /\ additionalPropertiesAllowed n = true /\ children n = [])
  /\ (exists n rng1,
        fieldBody replay (schemaOpen false) "labels" tokens = (Some n, rng1)
        /\ additionalPropertiesAllowed n = false /\ children n = [])
  /\ (exists n rng1,
        fieldBody replay schemaMapOfObjects "labels" tokens = (Some n, rng1)
        /\ map key (inlineFields (additionalProperties n)) = ["x"; "y"])
  /\ (exists n rng1,
        fieldBody replay schemaAdditionalNamed "labels" tokens = (Some n, rng1)
        /\ map key (children n) = ["additionalProperties"]).
Proof.
  split; [|split; [|split]].
  - eexists; eexists. split; [reflexivity|].
    destruct (C7_additional_properties replay (schemaOpen true) "labels" tokens
                _ _ eq_refl) as (Ha & _ & Hc).
    split; [exact Ha | exact Hc].
  - eexists; eexists. split; [reflexivity|].
    destruct (C7_additional_properties replay (schemaOpen false) "labels" tokens
                _ _ eq_refl) as (Ha & _ & Hc).
    split; [exact Ha | exact Hc].
  - eexists; eexists. split; [reflexivity|].
    destruct (C7_additional_properties replay schemaMapOfObjects "labels" tokens
                _ _ eq_refl) as (_ & sub & r2 & r3 & _ & Hap & Hk & _).
    rewrite Hap. exact Hk.
  - eexists; eexists. split; [reflexivity|].
    destruct (C7_additional_properties replay schemaAdditionalNamed "labels"
                tokens _ _ eq_refl) as (_ & sub & r2 & r3 & _ & _ & Hk & Hc & _).
    refine (eq_trans (f_equal (map key) Hc) _).
    rewrite map_app. cbn [fields map app]. rewrite map_app, Hk. reflexivity.
Defined.

(** For [{type: array, items: [{type: string}, {type: integer}]}] the
    handler leaves a broken page: the heading, then the sentence of
    line 208. *)
Lemma tuple_items_abort_example :
  fst (doc replay "crdsdev" "doc" "" (crdPlain (object [("pair", schemaTuple)])) tokens)
  = Broken "crdsdev/doc" "" "" "example.org" "v1" "Widget" ""
      "Supplied CRD has no schema.".
Proof. reflexivity. Qed.

(* ================================================================== *)
(** * Splitting and trimming *)
(* ================================================================== *)

Lemma append_empty (s : string) : (s ++ "")%string = s.
Proof. induction s as [|c s IH]; [reflexivity|]. cbn. now rewrite IH. Qed.

Lemma append_assoc3 (a b c : string) :
  ((a ++ b) ++ c)%string = (a ++ (b ++ c))%string.
Proof. induction a as [|x a IH]; [reflexivity|]. cbn. now rewrite IH. Qed.

Section Strings.

Variable sep : ascii.

Lemma Split_length s :
  List.length (strings.Split sep s) = S (strings.Count sep s).
Proof.
  induction s as [|c s IH]; [reflexivity|].
  cbn [strings.Split strings.Count]. destruct (Ascii.eqb c sep).
  - cbn [List.length]. now rewrite IH.
  - destruct (strings.Split sep s) as [|first others]; [discriminate IH|].
    cbn [List.length] in *. exact IH.
Qed.

Lemma Split_clean s :
  Forall (fun e => strings.Count sep e = 0) (strings.Split sep s).
Proof.
  induction s as [|c s IH]; [repeat constructor|].
  cbn [strings.Split]. destruct (Ascii.eqb c sep) eqn:E.
  - constructor; [reflexivity | exact IH].
  - destruct (strings.Split sep s) as [|first others].
    + constructor; [|constructor]. cbn. now rewrite E.
    + inversion IH as [|? ? Hf Ho]; subst. constructor; [|exact Ho].
      cbn. now rewrite E.
Qed.

Lemma Split_single a :
  strings.Count sep a = 0 -> strings.Split sep a = [a].
Proof.
  induction a as [|c a IH]; [reflexivity|].
  cbn [strings.Split strings.Count]. destruct (Ascii.eqb c sep); [discriminate|].
  intros H. now rewrite (IH H).
Qed.

(** A prefix free of separators stays in front of the first piece. *)
Lemma Split_prefix a b :
  strings.Count sep a = 0 ->
  strings.Split sep (a ++ b)%string
  = match strings.Split sep b with
    | first :: others => (a ++ first)%string :: others
    | [] => []
    end.
Proof.
  induction a as [|c a IH]; intros H.
  - cbn [append]. destruct (strings.Split sep b) eqn:E; [|reflexivity].
    pose proof (Split_length b) as Hl. rewrite E in Hl. discriminate Hl.
  - cbn [strings.Count] in H. cbn [append strings.Split].
    destruct (Ascii.eqb c sep); [discriminate|].
    rewrite (IH H). destruct (strings.Split sep b) as [|first others] eqn:E;
      [|reflexivity].
    pose proof (Split_length b) as Hl. rewrite E in Hl. discriminate Hl.
Qed.

Lemma Split_segment a b :
  strings.Count sep a = 0 ->
  strings.Split sep (a ++ String sep b)%string = a :: strings.Split sep b.
Proof.
  intros H. rewrite (Split_prefix a _ H). cbn [strings.Split].
  rewrite Ascii.eqb_refl. now rewrite append_empty.
Qed.

Lemma Join_Split s :
  strings.Join (strings.Split sep s) (String sep EmptyString) = s.
Proof.
  induction s as [|c s IH]; [reflexivity|].
  pose proof (Split_length s) as Hl.
  cbn [strings.Split]. destruct (Ascii.eqb_spec c sep) as [->|Hne].
  - destruct (strings.Split sep s) as [|first others]; [discriminate Hl|].
    change (String sep (strings.Join (first :: others) (String sep EmptyString))
            = String sep s).
    now rewrite IH.
  - destruct (strings.Split sep s) as [|first others]; [discriminate Hl|].
    destruct others as [|second others].
    + cbn [strings.Join] in *. now subst.
    + change (String c (strings.Join (first :: second :: others)
                          (String sep EmptyString)) = String c s).
      now rewrite IH.
Qed.

Lemma TrimRight_app a b :
  strings.TrimRight sep b <> EmptyString ->
  strings.TrimRight sep (a ++ b)%string = (a ++ strings.TrimRight sep b)%string.
Proof.
  intros H. induction a as [|c a IH]; [reflexivity|].
  cbn [append strings.TrimRight]. rewrite IH.
  destruct (a ++ strings.TrimRight sep b)%string eqn:E; [|reflexivity].
  destruct a; [|discriminate E]. cbn [append] in E. contradiction.
Qed.

Lemma TrimLeft_keeps s c :
  Ascii.eqb c sep = false -> strings.TrimLeft sep (String c s) = String c s.
Proof. intros H. cbn. now rewrite H. Qed.

Lemma Count_head c s :
  strings.Count sep (String c s) = 0 -> Ascii.eqb c sep = false.
Proof. cbn. destruct (Ascii.eqb c sep); [discriminate | reflexivity]. Qed.

Lemma clean_nth (l : list string) i :
  Forall (fun e => strings.Count sep e = 0) l ->
  strings.Count sep (nth i l EmptyString) = 0.
Proof.
  intros H. revert i. induction H as [|e l He _ IH]; intros [|i]; cbn; auto.
Qed.

End Strings.

Lemma Count_app sep (a b : string) :
  strings.Count sep (a ++ b)%string = strings.Count sep a + strings.Count sep b.
Proof.
  induction a as [|c a IH]; [reflexivity|].
  cbn [append strings.Count]. rewrite IH. lia.
Qed.

Lemma nth_1_guarded (l : list string) :
  (if (1 <? List.length l)%nat then nth 1 l "" else "") = nth 1 l "".
Proof. destruct l as [|a [|b l]]; reflexivity. Qed.

(* ================================================================== *)
(** * The request path *)
(* ================================================================== *)

Lemma parsePath_invalid_spec path e :
  parsePath path = inl e
  <-> e = InvalidPath /\ strings.Count "/" (strings.Trim "/" path) < 3.
Proof.
  unfold parsePath. rewrite Split_length.
  destruct (Nat.ltb_spec (S (strings.Count "/" (strings.Trim "/" path))) 4) as [H|H].
  - split.
    + intros E. injection E as <-. split; [reflexivity | lia].
    + intros [-> _]. reflexivity.
  - split; [discriminate | intros [_ H']; lia].
Qed.

(** X1: [parseGHURL] rejects a path exactly when, once the slashes at its
    ends are trimmed, fewer than four segments are left; nothing else
    about the path is checked. *)
Theorem parsePath_invalid_iff path e :
  parsePath path = inl e
  <-> e = InvalidPath /\ strings.Count "/" (strings.Trim "/" path) < 3.
Proof. exact (parsePath_invalid_spec path e). Qed.

Lemma parsePath_clean path org repo tag :
  parsePath path = inr (org, repo, tag) ->
  strings.Count "/" org = 0
  /\ strings.Count "/" repo = 0
  /\ strings.Count "@" tag = 0
  /\ (strings.Count "@" path = 0 -> tag = "").
Proof.
  unfold parsePath.
  destruct (List.length (strings.Split "/" (strings.Trim "/" path)) <? 4)%nat;
    [discriminate|].
  rewrite nth_1_guarded. intros H. injection H as <- <- <-.
  split; [apply clean_nth, Split_clean|].
  split; [apply clean_nth, Split_clean|].
  split; [apply clean_nth, Split_clean|].
  intros Hno. now rewrite (Split_single _ _ Hno).
Qed.

(** X2: whenever [parseGHURL] succeeds, [url.Parse] gave a path, the
    organisation and the repository returned contain no slash and the
    tag no at-sign; the tag is empty when that path (the [Path] of the
    parsed URL, not the argument) has no at-sign. *)
Theorem parseGHURL_parts_clean urlParse uPath org repo tag :
  parseGHURL urlParse uPath = inr (org, repo, tag) ->
  exists path,
    urlParse uPath = Some path
    /\ strings.Count "/" org = 0
    /\ strings.Count "/" repo = 0
    /\ strings.Count "@" tag = 0
    /\ (strings.Count "@" path = 0 -> tag = "").
Proof.
  unfold parseGHURL. destruct (urlParse uPath) as [path|]; [|discriminate].
  intros H. exists path. split; [reflexivity|].
  exact (parsePath_clean path org repo tag H).
Qed.

Lemma parseGHURL_parts_clean_witness :
  parseGHURL Some "/github.com/crossplane/oam/crds/trait.yaml@v0.2.1@old"
  = inr ("crossplane", "oam", "v0.2.1")
  /\ strings.Count "/" "crossplane" = 0
  /\ strings.Count "/" "oam" = 0
  /\ strings.Count "@" "v0.2.1" = 0.
Proof.
  split; [reflexivity|].
  destruct (parseGHURL_parts_clean Some
              "/github.com/crossplane/oam/crds/trait.yaml@v0.2.1@old"
              "crossplane" "oam" "v0.2.1" eq_refl)
    as (path & _ & H1 & H2 & H3 & _).
  split; [exact H1|]. split; [exact H2 | exact H3].
Defined.

Lemma path_prefix (host org repo rest : string) :
  ("/" ++ host ++ "/" ++ org ++ "/" ++ repo ++ "/" ++ rest)%string
  = (("/" ++ host ++ "/" ++ org ++ "/" ++ repo ++ "/") ++ rest)%string.
Proof.
  cbn [append]. f_equal. rewrite append_assoc3. cbn [append]. do 2 f_equal.
  rewrite append_assoc3. cbn [append]. do 2 f_equal.
  rewrite append_assoc3. reflexivity.
Qed.

(** A path of the form [/host/org/repo/rest] splits into [org] and
    [repo], with the tag taken after the first at-sign of [rest]. *)
Lemma parsePath_round_trip_parts host org repo rest :
  host <> "" ->
  strings.Count "/" host = 0 -> strings.Count "/" org = 0 ->
  strings.Count "/" repo = 0 ->
  strings.Count "@" host = 0 -> strings.Count "@" org = 0 ->
  strings.Count "@" repo = 0 ->
  strings.TrimRight "/" rest <> "" ->
  parsePath ("/" ++ host ++ "/" ++ org ++ "/" ++ repo ++ "/" ++ rest)
  = inr (org, repo, nth 1 (strings.Split "@" rest) "").
Proof.
  intros Hhost Sh So Sr Ah Ao Ar Hrest. unfold parsePath.
  rewrite nth_1_guarded.
  assert (Etag : nth 1 (strings.Split "@"
                          ("/" ++ host ++ "/" ++ org ++ "/" ++ repo ++ "/" ++ rest)) ""
                 = nth 1 (strings.Split "@" rest) "").
  { rewrite path_prefix, Split_prefix.
    - pose proof (Split_length "@" rest) as Hl.
      destruct (strings.Split "@" rest) as [|first others]; [discriminate Hl|].
      reflexivity.
    - cbn [append strings.Count]. rewrite !Count_app. cbn [strings.Count].
      rewrite !Count_app. cbn [strings.Count]. rewrite !Count_app.
      cbn. lia. }
  rewrite Etag. clear Etag.
  assert (Etrim : strings.Trim "/"
                    ("/" ++ host ++ "/" ++ org ++ "/" ++ repo ++ "/" ++ rest)
                  = (host ++ "/" ++ org ++ "/" ++ repo ++ "/"
                       ++ strings.TrimRight "/" rest)%string).
  { unfold strings.Trim. rewrite path_prefix, TrimRight_app by exact Hrest.
    rewrite <- path_prefix. cbn [append strings.TrimLeft]. cbn [Ascii.eqb Bool.eqb].
    destruct host as [|h host]; [contradiction|].
    cbn [append]. apply TrimLeft_keeps. exact (Count_head _ _ _ Sh). }
  rewrite Etrim. cbn [append].
  rewrite (Split_segment _ _ _ Sh), (Split_segment _ _ _ So), (Split_segment _ _ _ Sr).
  pose proof (Split_length "/" (strings.TrimRight "/" rest)) as Hl.
  destruct (strings.Split "/" (strings.TrimRight "/" rest)) as [|first others];
    [discriminate Hl|].
  reflexivity.
Qed.

(** X3: when [url.Parse] turns the argument into a path of the form
    [/host/org/repo/rest], [parseGHURL] returns [org] and [repo], and as
    tag the text between the first and the second at-sign of [rest]
    (empty when [rest] has none). The first segment may be anything: it
    is never compared with ["github.com"]. *)
Theorem parseGHURL_round_trip urlParse uPath host org repo rest :
  urlParse uPath
  = Some ("/" ++ host ++ "/" ++ org ++ "/" ++ repo ++ "/" ++ rest)%string ->
  host <> "" ->
  strings.Count "/" host = 0 -> strings.Count "/" org = 0 ->
  strings.Count "/" repo = 0 ->
  strings.Count "@" host = 0 -> strings.Count "@" org = 0 ->
  strings.Count "@" repo = 0 ->
  strings.TrimRight "/" rest <> "" ->
  parseGHURL urlParse uPath
  = inr (org, repo, nth 1 (strings.Split "@" rest) "").
Proof.
  intros Hu Hhost Sh So Sr Ah Ao Ar Hrest. unfold parseGHURL. rewrite Hu.
  now apply parsePath_round_trip_parts.
Qed.

Lemma parseGHURL_round_trip_witness :
  parseGHURL Some "/github.com/crossplane/oam/crds/trait.yaml@v0.2.1"
  = inr ("crossplane", "oam", "v0.2.1")
  /\ parseGHURL Some "/gitlab.com/crossplane/oam/crds/trait.yaml"
     = inr ("crossplane", "oam", "").
Proof.
  split.
  - apply (parseGHURL_round_trip Some _ "github.com" "crossplane" "oam"
             "crds/trait.yaml@v0.2.1");
      try reflexivity; discriminate.
  - apply (parseGHURL_round_trip Some _ "gitlab.com" "crossplane" "oam"
             "crds/trait.yaml");
      try reflexivity; discriminate.
Defined.

(** X4: The heading of the page joins organisation and repository with a
    slash; for what [parseGHURL] returns, splitting the heading at the
    slash gives the two back. *)
Theorem parsePath_heading_splits path org repo tag :
  parsePath path = inr (org, repo, tag) ->
  strings.Split "/" (strings.Join [org; repo] "/") = [org; repo].
Proof.
  intros H. apply parsePath_clean in H. destruct H as (Ho & Hr & _).
  cbn [strings.Join append].
  now rewrite (Split_segment _ _ _ Ho), (Split_single _ _ Hr).
Qed.

Lemma parsePath_heading_splits_witness :
  strings.Split "/" "crossplane/oam" = ["crossplane"; "oam"].
Proof.
  exact (parsePath_heading_splits
           "/github.com/crossplane/oam/crds/trait.yaml@v0.2.1"
           "crossplane" "oam" "v0.2.1" eq_refl).
Defined.

(* ================================================================== *)
(** * More on schema selection *)
(* ================================================================== *)

Lemma checkSchema_inr schema s :
  checkSchema schema = inr s <-> schema = Some (mkValidation (Some s)).
Proof.
  unfold checkSchema. destruct schema as [[[x|]]|]; cbn; split; intros H;
    try discriminate; congruence.
Qed.

Lemma checkSchema_inl schema e :
  checkSchema schema = inl e -> e = SchemaNotFound.
Proof.
  unfold checkSchema. destruct schema as [[[x|]]|]; cbn; intros H;
    try discriminate; congruence.
Qed.

Lemma find_storage_some vs v :
  find Storage vs = Some v -> In v vs /\ Storage v = true.
Proof. apply find_some. Qed.

(** X5: The schema the handler documents is the top-level validation schema
    or the schema of a version flagged as storage; the schema of a
    version that is not the storage version is never documented. *)
Theorem resolveSchema_source crd s :
  resolveSchema crd = inr s ->
  Validation (Spec crd) = Some (mkValidation (Some s))
  \/ exists v, In v (Versions (Spec crd))
               /\ Storage v = true
               /\ Schema v = Some (mkValidation (Some s)).
Proof.
  intros H.
  destruct (Nat.ltb_spec 1 (List.length (Versions (Spec crd)))) as [Hlt|Hle].
  - rewrite (resolveSchema_many crd Hlt) in H.
    destruct (find Storage (Versions (Spec crd))) as [v|] eqn:Hf.
    + right. exists v. apply find_storage_some in Hf. destruct Hf as [Hin Hst].
      split; [exact Hin|]. split; [exact Hst|].
      unfold outcomeAt in H. destruct (Schema v) as [val|]; [|discriminate].
      apply checkSchema_inr in H. exact H.
    + left. apply checkSchema_inr, H.
  - rewrite (resolveSchema_few crd Hle) in H. left. apply checkSchema_inr, H.
Qed.

Lemma resolveSchema_source_witness :
  Validation (Spec crdTwoStorage) = Some (mkValidation (Some schemaV1))
  \/ exists v, In v (Versions (Spec crdTwoStorage))
               /\ Storage v = true
               /\ Schema v = Some (mkValidation (Some schemaV1)).
Proof.
  apply (resolveSchema_source crdTwoStorage schemaV1). reflexivity.
Defined.

Lemma sameStorage_find vs1 vs2 :
  Forall2 sameStorage vs1 vs2 ->
  match find Storage vs1, find Storage vs2 with
  | Some a, Some b => Schema a = Schema b
  | None, None => True
  | _, _ => False
  end.
Proof.
  induction 1 as [|a b vs1 vs2 [Hst Hsc] _ IH]; simpl; [exact I|].
  rewrite <- Hst. destruct (Storage a); [now apply Hsc | exact IH].
Qed.

(** X6: Names, served flags and the schemas of the versions that are not
    flagged as storage have no bearing on the outcome. *)
Theorem resolveSchema_ignores_other_versions group version kind top vs1 vs2 :
  Forall2 sameStorage vs1 vs2 ->
  resolveSchema (mkCRD (mkSpec group version kind top vs1))
  = resolveSchema (mkCRD (mkSpec group version kind top vs2)).
Proof.
  intros H. pose proof (Forall2_length H) as Hlen.
  pose proof (sameStorage_find vs1 vs2 H) as Hfind.
  destruct (Nat.ltb_spec 1 (List.length vs1)) as [Hlt|Hle].
  - rewrite !resolveSchema_many by (simpl; lia). simpl.
    destruct (find Storage vs1) as [a|], (find Storage vs2) as [b|];
      try contradiction; [|reflexivity].
    unfold outcomeAt. now rewrite Hfind.
  - rewrite !resolveSchema_few by (simpl; lia). reflexivity.
Qed.

Lemma resolveSchema_ignores_other_versions_witness :
  resolveSchema
    (crdOf None [ mkVersion "alpha" false false None;
                  mkVersion "v2" true true (validation schemaV2) ])
  = resolveSchema crdStorageV2.
Proof.
  apply (resolveSchema_ignores_other_versions "example.org" "v1" "Widget" None).
  repeat constructor; cbn; discriminate.
Defined.

(** X7: The two ways resolution fails: the missing-storage-schema answer is
    given exactly when there are several versions and the first one
    flagged as storage has no schema; every other failure is the
    no-schema answer. *)
Theorem resolveSchema_failures crd e :
  resolveSchema crd = inl e ->
  (e = MissingStorageSchema
   <-> 1 < List.length (Versions (Spec crd))
       /\ exists v, find Storage (Versions (Spec crd)) = Some v
                    /\ Schema v = None)
  /\ (e <> MissingStorageSchema -> e = SchemaNotFound).
Proof.
  intros H.
  destruct (Nat.ltb_spec 1 (List.length (Versions (Spec crd)))) as [Hlt|Hle].
  - rewrite (resolveSchema_many crd Hlt) in H.
    destruct (find Storage (Versions (Spec crd))) as [v|] eqn:Hf.
    + unfold outcomeAt in H. destruct (Schema v) as [val|] eqn:Hs.
      * apply checkSchema_inl in H. subst e. split; [|reflexivity].
        split; [discriminate|].
        intros (_ & w & Hw & Hnone). injection Hw as <-. congruence.
      * injection H as <-. split; [|congruence].
        split; [|reflexivity]. intros _. split; [exact Hlt|]. now exists v.
    + apply checkSchema_inl in H. subst e. split; [|reflexivity].
      split; [discriminate|]. intros (_ & w & Hw & _). discriminate Hw.
  - rewrite (resolveSchema_few crd Hle) in H.
    apply checkSchema_inl in H. subst e. split; [|reflexivity].
    split; [discriminate | intros [Hlt _]; lia].
Qed.

Lemma resolveSchema_failures_witness :
  1 < List.length (Versions (Spec crdStorageBare))
  /\ exists v, find Storage (Versions (Spec crdStorageBare)) = Some v
               /\ Schema v = None.
Proof.
  apply (proj1 (resolveSchema_failures crdStorageBare MissingStorageSchema eq_refl)).
  reflexivity.
Defined.

(* ================================================================== *)
(** * More on template execution *)
(* ================================================================== *)

Lemma visitCount_unfold v :
  visitCount v
  = S (mapCount (Properties v) + mapCount (inlineProps (addlSchema v))
       + mapCount (inlineProps (itemsSchema v))).
Proof.
  destruct v as [d t r e mn mx props addl its].
  destruct addl as [[al [[d1 t1 r1 e1 mn1 mx1 ps1 a1 i1]|]]|];
    destruct its as [[[[d2 t2 r2 e2 mn2 mx2 ps2 a2 i2]|] tuple]|];
    reflexivity.
Qed.

Lemma list_sum_perm (l l' : list nat) :
  Permutation l l' -> list_sum l = list_sum l'.
Proof. induction 1; simpl; lia. Qed.

Lemma mapCount_sortKeys m : mapCount (sortKeys m) = mapCount m.
Proof.
  unfold mapCount. apply list_sum_perm, Permutation_map, sortKeys_perm.
Qed.

Lemma mapCount_cons kv l : mapCount (kv :: l) = visitCount (snd kv) + mapCount l.
Proof. reflexivity. Qed.

Section MoreRunFacts.

Context {Rng : Type} (randString : nat -> Rng -> string * Rng).

Lemma field_fails_spec m rng :
  fst (field randString m rng) = None
  <-> forallb (fun kv => renders (snd kv)) m = false.
Proof.
  destruct (field randString m rng) as [[ps|] rng1] eqn:E; cbn [fst].
  - apply field_renders in E. rewrite E. split; discriminate.
  - split; [|reflexivity]. intros _.
    destruct (forallb (fun kv => renders (snd kv)) m) eqn:Hr; [|reflexivity].
    destruct (field_total randString m rng Hr) as (ps & r & H). congruence.
Qed.

(** X8: The template fails exactly on the maps in which it reaches a schema
    with a non-empty [Items.JSONSchemas]; the generator and its state
    play no part in that. *)
Theorem field_fails_iff m rng :
  fst (field randString m rng) = None
  <-> forallb (fun kv => renders (snd kv)) m = false.
Proof. exact (field_fails_spec m rng). Qed.

(** X9: One panel per entry of the map, in key order, each one showing the
    description, type, required list, enum, bounds and allowed flag of
    its own entry. *)
Theorem field_shows_entries m rng ps rng1 :
  field randString m rng = (Some ps, rng1) ->
  Forall2 (fun kv n => shows (fst kv) (snd kv) n) (sortKeys m) ps
  /\ List.length ps = List.length m.
Proof.
  intros H.
  assert (F : Forall2 (fun kv n => shows (fst kv) (snd kv) n) (sortKeys m) ps).
  { revert H.
    apply (field_run_ind randString
             (fun v k _ n _ => shows k v n)
             (fun l _ ps _ => Forall2 (fun kv n => shows (fst kv) (snd kv) n) l ps)).
    - constructor.
    - intros kv l r n r1 l' r2 Hn Hl. constructor; assumption.
    - intros v k r fs r2 ap r3 it r4 _ _ _ _ _ _.
      unfold shows. cbn. repeat split; reflexivity. }
  split; [exact F|].
  rewrite <- (Forall2_length F). apply Permutation_length, sortKeys_perm.
Qed.

Lemma renderAll_blank_each l ps :
  Forall2 (fun kv n => fieldBody blank (snd kv) (fst kv) tt
                       = (Some (eraseIds n), tt)) l ps ->
  renderAll blank l tt = (Some (map eraseIds ps), tt).
Proof.
  induction 1 as [|kv n l ps Hn _ IH]; [reflexivity|].
  cbn [renderAll map].
  rewrite (bind_run _ _ _ _ _ Hn), (bind_run _ _ _ _ _ IH). reflexivity.
Qed.

(** X10: Ids aside, the panel of an entry is what the body gives for that
    entry alone: it depends neither on the other entries of the map nor
    on the generator. *)
Theorem field_panels_local m rng ps rng1 :
  field randString m rng = (Some ps, rng1) ->
  Forall2 (fun kv n => fieldBody blank (snd kv) (fst kv) tt
                       = (Some (eraseIds n), tt)) (sortKeys m) ps.
Proof.
  apply (field_run_ind randString
           (fun v k _ n _ => fieldBody blank v k tt = (Some (eraseIds n), tt))
           (fun l _ ps _ =>
              Forall2 (fun kv n => fieldBody blank (snd kv) (fst kv) tt
                                   = (Some (eraseIds n), tt)) l ps)).
  - constructor.
  - intros kv l r n r1 l' r2 Hn Hl. constructor; assumption.
  - intros v k r fs r2 ap r3 it r4 Hf Ha Hi Ea Ei Htup.
    rewrite eraseIds_node.
    apply (fieldBody_build blank v k tt (map eraseIds fs) tt
             (eraseInline ap) tt (eraseInline it) tt).
    + rewrite field_renderAll. apply renderAll_blank_each, Hf.
    + apply inline_blank; [exact Ea | apply renderAll_blank_each, Ha].
    + apply inline_blank; [exact Ei | apply renderAll_blank_each, Hi].
    + exact Htup.
Qed.

Lemma field_count_spec m rng ps rng1 :
  field randString m rng = (Some ps, rng1) ->
  totalCount ps = mapCount m
  /\ rng1 = skip randString (mapCount m) rng.
Proof.
  intros H.
  assert (C : totalCount ps = mapCount (sortKeys m)).
  { revert H.
    apply (field_run_ind randString
             (fun v _ _ n _ => nodeCount n = visitCount v)
             (fun l _ ps _ => totalCount ps = mapCount l)).
    - reflexivity.
    - intros kv l r n r1 l' r2 Hn Hl.
      now rewrite totalCount_cons, mapCount_cons, Hn, Hl.
    - intros v k r fs r2 ap r3 it r4 Hf Ha Hi _ _ _.
      rewrite nodeCount_node, visitCount_unfold, Hf, Ha, Hi, !mapCount_sortKeys.
      reflexivity. }
  rewrite mapCount_sortKeys in C. split; [exact C|].
  rewrite <- C. apply (field_ids randString m rng ps rng1 H).
Qed.

(** X11: The number of panels, and with it the number of tokens taken from
    the generator, is fixed by the schema: one per entry the template
    ranges over. *)
Theorem field_count m rng ps rng1 :
  field randString m rng = (Some ps, rng1) ->
  totalCount ps = mapCount m
  /\ rng1 = skip randString (mapCount m) rng.
Proof. exact (field_count_spec m rng ps rng1). Qed.

End MoreRunFacts.

Lemma field_shows_entries_witness :
  exists ps rng1,
    field replay (Properties schemaAB) tokens = (Some ps, rng1)
    /\ Forall2 (fun kv n => shows (fst kv) (snd kv) n)
         [("a", leaf "string"); ("b", leaf "integer")] ps
    /\ List.length ps = 2.
Proof.
  eexists; eexists. split; [reflexivity|].
  exact (field_shows_entries replay (Properties schemaAB) tokens _ _ eq_refl).
Defined.

Lemma field_panels_local_witness :
  exists ps rng1,
    field replay (Properties schemaAB) tokens = (Some ps, rng1)
    /\ Forall2 (fun kv n => fieldBody blank (snd kv) (fst kv) tt
                            = (Some (eraseIds n), tt))
         [("a", leaf "string"); ("b", leaf "integer")] ps.
Proof.
  eexists; eexists. split; [reflexivity|].
  exact (field_panels_local replay (Properties schemaAB) tokens _ _ eq_refl).
Defined.

Lemma field_count_witness :
  exists ps rng1,
    field replay [("root", nested 3)] tokens = (Some ps, rng1)
    /\ totalCount ps = 4
    /\ rng1 = ["rstvwxz245"].
Proof.
  eexists; eexists. split; [reflexivity|].
  exact (field_count replay [("root", nested 3)] tokens _ _ eq_refl).
Defined.

Lemma inline_reads {Rng : Type} (randString : nat -> Rng -> string * Rng) s s' :
  Description s = Description s' -> Type_ s = Type_ s' ->
  Properties s = Properties s' ->
  inline randString (Some s) = inline randString (Some s').
Proof. intros Hd Ht Hp. unfold inline. now rewrite Hd, Ht, Hp. Qed.

(** X12: Of a schema under [additionalProperties] or [items] the template
    reads the description, the type and the properties, and nothing
    else: its own items, additionalProperties, required list, enum and
    bounds leave the output, and success or failure, unchanged. *)
Theorem fieldBody_inline_reads {Rng : Type}
        (randString : nat -> Rng -> string * Rng)
        d t r e mn mx props al addl its tuple s s' k rng :
  Description s = Description s' -> Type_ s = Type_ s' ->
  Properties s = Properties s' ->
  fieldBody randString
    (mkJSONSchemaProps d t r e mn mx props
       (Some (mkJSONSchemaPropsOrBool al (Some s))) its) k rng
  = fieldBody randString
      (mkJSONSchemaProps d t r e mn mx props
         (Some (mkJSONSchemaPropsOrBool al (Some s'))) its) k rng
  /\ fieldBody randString
       (mkJSONSchemaProps d t r e mn mx props addl
          (Some (mkJSONSchemaPropsOrArray (Some s) tuple))) k rng
     = fieldBody randString
         (mkJSONSchemaProps d t r e mn mx props addl
            (Some (mkJSONSchemaPropsOrArray (Some s') tuple))) k rng.
Proof.
  intros Hd Ht Hp. rewrite !fieldBody_unfold.
  unfold addlSchema, itemsSchema, itemsTuple, allows.
  cbn [AdditionalProperties Items OrBool_Schema OrArray_Schema JSONSchemas
       Allows Properties Description Type_ Required Enum Minimum Maximum].
  rewrite (inline_reads randString s s' Hd Ht Hp). split; reflexivity.
Qed.

Lemma fieldBody_inline_reads_witness :
  fieldBody replay schemaArrayOfTuples "matrix" tokens
  = fieldBody replay
      (mkJSONSchemaProps "" "array" [] [] None None [] None
         (Some (mkJSONSchemaPropsOrArray (Some (leaf "array")) [])))
      "matrix" tokens.
Proof.
  apply (proj2 (fieldBody_inline_reads replay "" "array" [] [] None None []
                  false None None [] schemaTuple (leaf "array") "matrix" tokens
                  eq_refl eq_refl eq_refl)).
Defined.

(** X13: Of the root schema the page shows the description and the panels of
    the properties; its type, required list, items and
    additionalProperties are not printed. *)
Theorem doc_reads_root {Rng : Type} (randString : nat -> Rng -> string * Rng)
        org repo tag crd crd' s s' rng :
  resolveSchema crd = inr s -> resolveSchema crd' = inr s' ->
  Group (Spec crd) = Group (Spec crd') ->
  Version (Spec crd) = Version (Spec crd') ->
  Kind (Spec crd) = Kind (Spec crd') ->
  Description s = Description s' -> Properties s = Properties s' ->
  doc randString org repo tag crd rng = doc randString org repo tag crd' rng.
Proof.
  intros Hs Hs' Hg Hv Hk Hd Hp. unfold doc, docTemplate.
  now rewrite Hs, Hs', Hg, Hv, Hk, Hd, Hp.
Qed.

Lemma doc_reads_root_witness :
  doc replay "crdsdev" "doc" "" (crdPlain schemaAB) tokens
  = doc replay "crdsdev" "doc" ""
      (crdPlain (mkJSONSchemaProps "" "array" [] [] None None
                   (Properties schemaAB) None
                   (Some (mkJSONSchemaPropsOrArray None [leaf "string"]))))
      tokens.
Proof.
  apply (doc_reads_root replay "crdsdev" "doc" "" _ _ schemaAB
           (mkJSONSchemaProps "" "array" [] [] None None
              (Properties schemaAB) None
              (Some (mkJSONSchemaPropsOrArray None [leaf "string"]))));
    reflexivity.
Defined.

(** X14: for a manifest whose schema resolves, the handler leaves a
    broken page (the heading and whatever the template had written of
    the accordion, then "Supplied CRD has no schema.") exactly when the
    template fails, that is, when it reaches a schema with tuple-form
    items; the response is then never the bare sentence. *)
Theorem doc_tuple_message {Rng : Type} (randString : nat -> Rng -> string * Rng)
        org repo tag crd s rng :
  resolveSchema crd = inr s ->
  (fst (doc randString org repo tag crd rng)
   = Broken (org ++ "/" ++ repo) tag (if String.eqb tag "" then "" else "@")
       (Group (Spec crd)) (Version (Spec crd)) (Kind (Spec crd))
       (Description s) "Supplied CRD has no schema."
   <-> forallb (fun kv => renders (snd kv)) (Properties s) = false)
  /\ (forall text, fst (doc randString org repo tag crd rng) <> Message text).
Proof.
  intros Hs. rewrite <- (field_fails_spec randString (Properties s) rng).
  unfold doc, docTemplate, bind. rewrite Hs, ifNonEmpty_field.
  destruct (field randString (Properties s) rng) as [[ps|] r]; cbn.
  - split; [split; discriminate | discriminate].
  - split; [split; reflexivity | discriminate].
Qed.

Lemma doc_tuple_message_witness :
  fst (doc replay "crdsdev" "doc" "" (crdPlain (object [("pair", schemaTuple)])) tokens)
  = Broken "crdsdev/doc" "" "" "example.org" "v1" "Widget" ""
      "Supplied CRD has no schema.".
Proof.
  apply (proj1 (doc_tuple_message replay "crdsdev" "doc" ""
                  (crdPlain (object [("pair", schemaTuple)]))
                  (object [("pair", schemaTuple)]) tokens eq_refl)).
  reflexivity.
Defined.

(* ================================================================== *)
(** * Tokens taken by a run, failed or not *)
(* ================================================================== *)

Section Skips.

Context {Rng : Type} (randString : nat -> Rng -> string * Rng).










End Skips.

(* ================================================================== *)
(** * The handler from the request path on *)
(* ================================================================== *)

Section RequestFacts.

Context {Rng : Type} (randString : nat -> Rng -> string * Rng).
Variable urlParse : string -> option string.
Variable redisGet : string -> option string.
Variable jsonUnmarshal : string -> option CustomResourceDefinition.
Variable newTemplateFails : bool.

Let handle : string -> Rng -> Reply * Rng :=
  docRequest randString urlParse redisGet jsonUnmarshal newTemplateFails.

Lemma doc_not_invalid_url org repo tag crd rng :
  fst (doc randString org repo tag crd rng) <> Message "Invalid URL.".
Proof.
  unfold doc. destruct (resolveSchema crd) as [[| |]|s];
    cbn [fst errorText]; try discriminate.
  match goal with
  | |- context [docTemplate ?rs ?d ?g] =>
      destruct (docTemplate rs d g) as [[page|] r]; cbn; discriminate
  end.
Qed.

(** X15: "Invalid URL." is the answer exactly when [url.Parse] fails or the
    parsed path, trimmed of slashes, has fewer than four segments; the
    cache, the decoder and the generator are not involved. *)
Theorem docRequest_invalid_url_iff path rng rng1 :
  handle path rng = (Plain (Message "Invalid URL."), rng1)
  <-> rng1 = rng
      /\ (urlParse path = None
          \/ exists p, urlParse path = Some p
                       /\ strings.Count "/" (strings.Trim "/" p) < 3).
Proof.
  unfold handle, docRequest, parseGHURL. destruct (urlParse path) as [p|].
  - destruct (parsePath p) as [e|[[org repo] tag]] eqn:E.
    + apply parsePath_invalid_spec in E. destruct E as [_ E]. split.
      * intros H. injection H as <-. split; [reflexivity|]. right. now exists p.
      * intros [-> _]. reflexivity.
    + split.
      * intros H. exfalso.
        destruct (redisGet (strings.Trim "/" path)) as [res|]; [|discriminate H].
        destruct (jsonUnmarshal res) as [crd|]; [|discriminate H].
        pose proof (doc_not_invalid_url org repo tag crd rng) as Hn.
        destruct (doc randString org repo tag crd rng) as [r r1].
        injection H as H _. apply Hn. exact H.
      * intros [_ [H|(q & Hq & Hc)]]; [discriminate H|]. injection Hq as <-.
        assert (Hbad : parsePath p = inl InvalidPath)
          by (apply parsePath_invalid_spec; split; [reflexivity | exact Hc]).
        congruence.
  - split.
    + intros H. injection H as <-. split; [reflexivity | now left].
    + intros [-> _]. reflexivity.
Qed.


(** X17: A request whose path parses, whose cache entry decodes and whose
    schema resolves and has no tuple-form items is answered with the
    page: the heading from the path and the manifest, one panel per
    property of the root schema in key order, and as many tokens taken
    as the schema has entries to range over. *)
Theorem docRequest_renders path p org repo tag res crd s rng :
  urlParse path = Some p ->
  parsePath p = inr (org, repo, tag) ->
  redisGet (strings.Trim "/" path) = Some res ->
  jsonUnmarshal res = Some crd ->
  resolveSchema crd = inr s ->
  forallb (fun kv => renders (snd kv)) (Properties s) = true ->
  exists ps,
    handle path rng
    = (Plain (Rendered
                (mkPage (org ++ "/" ++ repo) tag
                   (if String.eqb tag "" then "" else "@")
                   (Group (Spec crd)) (Version (Spec crd)) (Kind (Spec crd))
                   (Description s) ps)),
       skip randString (mapCount (Properties s)) rng)
    /\ map key ps = map fst (sortKeys (Properties s)).
Proof.
  intros Hu Hp Hg Hj Hs Hr.
  destruct (field_total randString (Properties s) rng Hr) as (ps & rng1 & Hf).
  exists ps. split; [|apply (field_keys _ _ _ _ _ Hf)].
  destruct (field_count_spec randString _ _ _ _ Hf) as [_ <-].
  unfold handle, docRequest, parseGHURL. rewrite Hu, Hp, Hg, Hj.
  unfold doc, docTemplate, bind. rewrite Hs, ifNonEmpty_field, Hf. reflexivity.
Qed.

End RequestFacts.


Lemma docRequest_renders_witness :
  exists ps,
    docRequest replay Some
      (cacheOf "github.com/crossplane/oam/crds/trait.yaml@v0.2.1" "{...}")
      (decoderOf "{...}" (crdPlain schemaAB)) false
      "/github.com/crossplane/oam/crds/trait.yaml@v0.2.1" tokens
    = (Plain (Rendered
                (mkPage "crossplane/oam" "v0.2.1" "@" "example.org" "v1" "Widget"
                   "" ps)),
       ["2456789bcd"; "fghjklmnpq"; "rstvwxz245"])
    /\ map key ps = ["a"; "b"].
Proof.
  apply (docRequest_renders replay Some
           (cacheOf "github.com/crossplane/oam/crds/trait.yaml@v0.2.1" "{...}")
           (decoderOf "{...}" (crdPlain schemaAB)) false
           "/github.com/crossplane/oam/crds/trait.yaml@v0.2.1"
           "/github.com/crossplane/oam/crds/trait.yaml@v0.2.1"
           "crossplane" "oam" "v0.2.1" "{...}" (crdPlain schemaAB) schemaAB tokens);
    reflexivity.
Defined.
